(** * PMVHaven2 scraper: candidate resolution and scoring

    A shallow embedding of [scrapers/PMVHaven2.py] and the properties its
    specification states about it.

    Modelling conventions.
    - A Python [str] is a Rocq [string]; a character is a code point below
      256, and the character classes of [re] and [str.strip] ([\d], [\s],
      [\w]) are the ones CPython uses on that range.
    - A Python [float] is a rational number ([Q]); arithmetic is exact,
      and there is neither overflow nor NaN.
    - A decoded JSON document is the inductive type [json]; a [dict] is an
      association list in insertion order, with distinct keys.
    - [os.path] is [posixpath].
    - Library code outside the repository ([float] on a string, [str] on a
      value that is not a string, [SequenceMatcher.ratio]) is taken through
      the record [Platform].
    - The remote catalog is a function from the requests made so far and
      the current request to a response.  Effects are threaded by the
      monad [M]: the state is the request history and what was written to
      standard output, a computation returns, exits or raises.  The log
      file and standard error are not part of the state. *)

From Stdlib Require Import List Bool Arith ZArith QArith Qabs Lia Lqa.
From Stdlib Require Import Strings.Ascii Strings.String.
From Stdlib Require Import Sorting.Permutation Sorting.Sorted.
Import ListNotations.

Local Open Scope char_scope.
Local Open Scope string_scope.
Local Open Scope list_scope.

(** ** Characters and character classes *)

Module Chars.

Definition code (c : ascii) : N := N_of_ascii c.

Definition in_range (lo hi : N) (c : ascii) : bool :=
  (N.leb lo (code c) && N.leb (code c) hi)%bool.

(** [\d] *)
Definition is_digit (c : ascii) : bool := in_range 48 57 c.

(** [\s], and the characters [str.strip()] removes *)
Definition is_space (c : ascii) : bool :=
  in_range 9 13 c || in_range 28 32 c
  || N.eqb (code c) 133 || N.eqb (code c) 160.

(** [[A-Za-z0-9]] *)
Definition is_alnum (c : ascii) : bool :=
  in_range 48 57 c || in_range 65 90 c || in_range 97 122 c.

(** [[a-f0-9]] *)
Definition is_hex (c : ascii) : bool :=
  in_range 48 57 c || in_range 97 102 c.

(** [\w]: [str.isalnum] or an underscore *)
Definition is_word (c : ascii) : bool :=
  is_alnum c || Ascii.eqb c "_"
  || N.eqb (code c) 170 || in_range 178 179 c || N.eqb (code c) 181
  || in_range 185 186 c || in_range 188 190 c
  || in_range 192 214 c || in_range 216 246 c || in_range 248 255 c.

Definition is_char (a c : ascii) : bool := Ascii.eqb c a.

End Chars.
Import Chars.

(** ** Text operations on character lists *)

Module Text.

Definition chars := list ascii.

Fixpoint take_while (p : ascii -> bool) (l : chars) : chars :=
  match l with
  | c :: r => if p c then c :: take_while p r else []
  | [] => []
  end.

Fixpoint drop_while (p : ascii -> bool) (l : chars) : chars :=
  match l with
  | c :: r => if p c then drop_while p r else l
  | [] => []
  end.

(** [len(run)] for the longest run of [p] at the head of [l] *)
Definition run_length (p : ascii -> bool) (l : chars) : nat :=
  List.length (take_while p l).

(** [posixpath.basename]: what follows the last ["/"] *)
Fixpoint basename (l : chars) : chars :=
  match l with
  | [] => []
  | c :: r =>
      if existsb (is_char "/") r then basename r
      else if is_char "/" c then r else c :: r
  end.

(** [value.split("?")[0]] *)
Definition before_question (l : chars) : chars :=
  take_while (fun c => negb (is_char "?" c)) l.

(** [re.sub(r"\.[^.]+$", "", name)]: the leftmost ["."] followed, up to
    the end, by one or more characters other than ["."] starts the only
    match, and the match reaches the end of the string. *)
Fixpoint strip_ext (l : chars) : chars :=
  match l with
  | [] => []
  | c :: r =>
      if is_char "." c
         && negb (Nat.eqb (List.length r) 0)
         && forallb (fun d => negb (is_char "." d)) r
      then []
      else c :: strip_ext r
  end.

(** [l] starts with [p] *)
Fixpoint is_prefix (p s : chars) : bool :=
  match p, s with
  | [], _ => true
  | a :: p', b :: s' => Ascii.eqb a b && is_prefix p' s'
  | _ :: _, [] => false
  end.

Definition separator : chars := ["_"; "-"; "_"]%char.

(** [name.split("_-_", 1)[1]] when ["_-_" in name] *)
Fixpoint after_sep (l : chars) : option chars :=
  match l with
  | [] => None
  | _ :: r =>
      if is_prefix separator l then Some (skipn 3 l) else after_sep r
  end.

(** [name.replace("_", " ").replace("-", " ")] *)
Definition despace (c : ascii) : ascii :=
  if is_char "_" c || is_char "-" c then " "%char else c.

(** [r"\s(\d{8,})\s"] matching at the head of [l] *)
Definition flanked_here (l : chars) : bool :=
  match l with
  | c :: r =>
      let n := run_length is_digit r in
      is_space c && Nat.leb 8 n
      && match skipn n r with
         | d :: _ => is_space d
         | [] => false
         end
  | [] => false
  end.

#[global] Arguments flanked_here : simpl never.

(** [re.search(r"\s(\d{8,})\s", name)]: [match.start()] *)
Fixpoint search_flanked (l : chars) : option nat :=
  match l with
  | [] => None
  | _ :: r =>
      if flanked_here l then Some 0%nat
      else option_map S (search_flanked r)
  end.

Definition word_before (prev : option ascii) : bool :=
  match prev with
  | Some p => is_word p
  | None => false
  end.

Definition word_at (l : chars) : bool :=
  match l with
  | c :: _ => is_word c
  | [] => false
  end.

(** [r"\b(\d{8,})"] matching at the head of [l], [prev] being the
    character before it *)
Definition boundary_here (prev : option ascii) (l : chars) : bool :=
  xorb (word_before prev) (word_at l)
  && Nat.leb 8 (run_length is_digit l).

#[global] Arguments boundary_here : simpl never.

(** [re.search(r"\b(\d{8,})", name)]: [match.start()] *)
Fixpoint search_boundary (prev : option ascii) (l : chars) : option nat :=
  match l with
  | [] => None
  | c :: r =>
      if boundary_here prev l then Some 0%nat
      else option_map S (search_boundary (Some c) r)
  end.

(** [re.sub(r"\s+", " ", name)]; [in_ws] tells that the previous
    character was white space *)
Fixpoint collapse (in_ws : bool) (l : chars) : chars :=
  match l with
  | [] => []
  | c :: r =>
      if is_space c
      then if in_ws then collapse true r else " "%char :: collapse true r
      else c :: collapse false r
  end.

Definition lstrip (p : ascii -> bool) (l : chars) : chars := drop_while p l.
Definition rstrip (p : ascii -> bool) (l : chars) : chars :=
  rev (drop_while p (rev l)).
Definition strip (p : ascii -> bool) (l : chars) : chars :=
  rstrip p (lstrip p l).

(** [r"(\d+)_([A-Za-z0-9]+)"] matching at the head of [l]: the groups *)
Definition combined_here (l : chars) : option (chars * chars) :=
  let ts := take_while is_digit l in
  match ts, skipn (List.length ts) l with
  | _ :: _, "_"%char :: r =>
      match take_while is_alnum r with
      | [] => None
      | suffix => Some (ts, suffix)
      end
  | _, _ => None
  end.

(** [re.search(r"(\d+)_([A-Za-z0-9]+)", name)] *)
Fixpoint search_combined (l : chars) : option (chars * chars) :=
  match l with
  | [] => None
  | _ :: r =>
      match combined_here l with
      | Some g => Some g
      | None => search_combined r
      end
  end.

(** [re.search(r"\d+", name)] *)
Definition search_digits (l : chars) : option chars :=
  match take_while is_digit (drop_while (fun c => negb (is_digit c)) l) with
  | [] => None
  | run => Some run
  end.

(** [re.fullmatch(r"[A-Za-z0-9]+", name)] *)
Definition fullmatch_alnum (l : chars) : bool :=
  negb (Nat.eqb (List.length l) 0) && forallb is_alnum l.

(** White space comes first *)
Definition starts_blank (l : chars) : bool :=
  match l with
  | d :: _ => is_space d
  | [] => false
  end.

End Text.
Import Text.

Definition of_chars : chars -> string := string_of_list_ascii.
Definition to_chars : string -> chars := list_ascii_of_string.

(** ** Query builder and token extractor *)

Definition cut_at_digits (name : chars) : chars :=
  let m :=
    match search_flanked name with
    | Some i => Some i
    | None => search_boundary None name
    end in
  match m with
  | Some i => firstn i name
  | None => name
  end.

Definition build_chars (value : chars) : chars :=
  let name := basename value in
  let name := strip_ext name in
  let name := match after_sep name with Some t => t | None => name end in
  let name := map despace name in
  let name := cut_at_digits name in
  strip is_space (collapse false name).

Definition _build_search_query (value : string) : string :=
  if String.eqb value "" then ""
  else of_chars (build_chars (to_chars value)).

Definition _extract_filename_tokens (filename : string) : list string :=
  if String.eqb filename "" then []
  else
    let name := basename (before_question (to_chars filename)) in
    let name := strip_ext name in
    match search_combined name with
    | Some (timestamp, suffix) =>
        [of_chars (timestamp ++ "_"%char :: suffix); of_chars timestamp;
         of_chars suffix]
    | None =>
        match search_digits name with
        | Some timestamp => [of_chars timestamp]
        | None => if fullmatch_alnum name then [of_chars name] else []
        end
    end.

(** ** JSON documents and the Python operations used on them *)

#[warnings="-register-all"] Inductive json : Type :=
| JNull
| JBool (b : bool)
| JInt (z : Z)
| JFloat (q : Q)
| JStr (s : string)
| JList (l : list json)
| JDict (d : list (string * json)).

Definition dict := list (string * json).

(** Exceptions of class [Exception] the modelled code can raise *)
Inductive exn : Type :=
| AttributeError (msg : string)
| TypeError (msg : string).

(** Result of a pure function that can raise *)
Inductive res (A : Type) : Type :=
| Ok (a : A)
| Exc (e : exn).
Arguments Ok {A} a.
Arguments Exc {A} e.

Definition res_bind {A B} (r : res A) (k : A -> res B) : res B :=
  match r with
  | Ok a => k a
  | Exc e => Exc e
  end.

Module Py.

Definition type_name (v : json) : string :=
  match v with
  | JNull => "NoneType"
  | JBool _ => "bool"
  | JInt _ => "int"
  | JFloat _ => "float"
  | JStr _ => "str"
  | JList _ => "list"
  | JDict _ => "dict"
  end.

Definition no_attribute (v : json) (attr : string) : exn :=
  AttributeError ("'" ++ type_name v ++ "' object has no attribute '"
                  ++ attr ++ "'").

Definition not_iterable (v : json) : exn :=
  TypeError ("'" ++ type_name v ++ "' object is not iterable").

Definition not_container (v : json) : exn :=
  TypeError ("argument of type '" ++ type_name v ++ "' is not iterable").

Definition not_text (v : json) : exn :=
  TypeError ("expected string or bytes-like object, got '"
             ++ type_name v ++ "'").

(** [bool(v)] *)
Definition truthy (v : json) : bool :=
  match v with
  | JNull => false
  | JBool b => b
  | JInt z => negb (Z.eqb z 0)
  | JFloat q => negb (Qeq_bool q 0)
  | JStr s => negb (String.eqb s "")
  | JList l => negb (Nat.eqb (List.length l) 0)
  | JDict d => negb (Nat.eqb (List.length d) 0)
  end.

(** [a or b] *)
Definition or_else (a b : json) : json := if truthy a then a else b.

Fixpoint lookup (key : string) (d : dict) : option json :=
  match d with
  | [] => None
  | (k, v) :: r => if String.eqb k key then Some v else lookup key r
  end.

(** [d.get(key, default)] *)
Definition get_default (key : string) (default : json) (d : dict) : json :=
  match lookup key d with
  | Some v => v
  | None => default
  end.

(** [d.get(key)] *)
Definition get (key : string) (d : dict) : json := get_default key JNull d.

(** [key in d] for a dict *)
Definition has_key (key : string) (d : dict) : bool :=
  match lookup key d with
  | Some _ => true
  | None => false
  end.

Fixpoint is_infix (p s : chars) : bool :=
  is_prefix p s
  || match s with
     | [] => false
     | _ :: s' => is_infix p s'
     end.

(** [sub in s] for two strings *)
Definition contains (sub s : string) : bool :=
  is_infix (to_chars sub) (to_chars s).

Definition is_str (s : string) (v : json) : bool :=
  match v with
  | JStr t => String.eqb t s
  | _ => false
  end.

(** [key in v] for a string [key] *)
Definition str_in (key : string) (v : json) : res bool :=
  match v with
  | JDict d => Ok (has_key key d)
  | JList l => Ok (existsb (is_str key) l)
  | JStr s => Ok (contains key s)
  | _ => Exc (not_container v)
  end.

(** [" ".join(words)] *)
Fixpoint join (sep : string) (words : list string) : string :=
  match words with
  | [] => ""
  | [w] => w
  | w :: r => (w ++ sep ++ join sep r)%string
  end.

(** [str.lower] *)
Definition lower_char (c : ascii) : ascii :=
  if in_range 65 90 c || in_range 192 214 c || in_range 216 222 c
  then ascii_of_N (code c + 32)
  else c.

Definition lower (s : string) : string := of_chars (map lower_char (to_chars s)).

(** [s.split(sep)] for a one-character separator *)
Fixpoint split_on (sep : ascii) (l : chars) : list chars :=
  match l with
  | [] => [[]]
  | c :: r =>
      if is_char sep c then [] :: split_on sep r
      else
        match split_on sep r with
        | w :: ws => (c :: w) :: ws
        | [] => [[c]]
        end
  end.

End Py.
Import Py.

(** [dig(data, *keys)] *)
Fixpoint dig (data : json) (keys : list string) : json :=
  match keys with
  | [] => data
  | key :: rest =>
      match data with
      | JDict d =>
          match lookup key d with
          | Some v => dig v rest
          | None => JNull
          end
      | _ => JNull
      end
  end.

(** Builtins of the interpreter that are not modelled further:
    [float] on a string ([None] for [ValueError]), [str] on a value that
    is not a string, and [difflib.SequenceMatcher(None, a, b).ratio()]. *)
Record Platform : Type := {
  float_of_str : string -> option Q;
  py_str : json -> string;
  ratio : string -> string -> Q
}.

Definition DURATION_TOLERANCE_SECONDS : Q := 10.

(** ** The remote catalog, standard output and the effect monad *)

Inductive request : Type :=
| WatchPage (video_id : string)
| SearchVideos (limit page : Z) (q : string).

Definition is_search (r : request) : bool :=
  match r with
  | SearchVideos _ _ _ => true
  | WatchPage _ => false
  end.

Definition is_watch (r : request) : bool := negb (is_search r).

(** What [scraper.get] and [resp.json()] give: the request raises, or a
    response arrives whose body decodes ([Some]) or does not ([None]). *)
Inductive response : Type :=
| TransportError (msg : string)
| Http (status : Z) (body : option json).

Record world : Type := {
  history : list request;
  stdout : list json
}.

Inductive outcome (A : Type) : Type :=
| Ret (a : A)
| Exit (code : Z)
| Raise (e : exn).
Arguments Ret {A} a.
Arguments Exit {A} code.
Arguments Raise {A} e.

(** The state a process starts in *)
Definition initial : world := {| history := []; stdout := [] |}.

Definition M (A : Type) : Type := world -> outcome A * world.

Definition ret {A} (a : A) : M A := fun w => (Ret a, w).

Definition bind {A B} (m : M A) (k : A -> M B) : M B :=
  fun w =>
    match m w with
    | (Ret a, w') => k a w'
    | (Exit c, w') => (Exit c, w')
    | (Raise e, w') => (Raise e, w')
    end.

Notation "x <- m ;; k" := (bind m (fun x => k))
  (at level 61, m at next level, right associativity).

Definition lift {A} (r : res A) : M A :=
  fun w =>
    match r with
    | Ok a => (Ret a, w)
    | Exc e => (Raise e, w)
    end.

(** [jprint(obj)] *)
Definition jprint (obj : json) : M unit :=
  fun w => (Ret tt, {| history := history w; stdout := stdout w ++ [obj] |}).

Definition error_object (message : string) : json :=
  JDict [("error", JStr message)].

(** [fail(message)]: print the error object, [raise SystemExit(1)] *)
Definition fail {A} (message : string) : M A :=
  fun w =>
    match jprint (error_object message) w with
    | (_, w') => (Exit 1, w')
    end.

(** ** Durations, scoring and the scene builder *)

Section Scraper.

Variable P : Platform.

(** [f"{v}"] *)
Definition fmt (v : json) : string :=
  match v with
  | JStr s => s
  | _ => py_str P v
  end.

Definition _coerce_duration (value : json) : option Q :=
  match value with
  | JBool b => Some (if b then 1 else 0)
  | JInt z => Some (inject_Z z)
  | JFloat q => Some q
  | JStr s => float_of_str P s
  | _ => None
  end.

Definition duration_keys : list string :=
  ["duration"; "durationSeconds"; "length"; "runtime"; "runTime"; "time"].

Fixpoint first_duration (keys : list string) (video : dict) : option Q :=
  match keys with
  | [] => None
  | key :: rest =>
      match _coerce_duration (get key video) with
      | Some d => Some d
      | None => first_duration rest video
      end
  end.

Definition _extract_candidate_duration (video : dict) : option Q :=
  first_duration duration_keys video.

Definition within_tolerance (candidate local : Q) : bool :=
  Qle_bool (Qabs (candidate - local)) DURATION_TOLERANCE_SECONDS.

Definition _duration_matches
    (candidate_duration : option Q) (local_durations : list Q) : bool :=
  match candidate_duration, local_durations with
  | None, _ => false
  | _, [] => false
  | Some c, _ => existsb (within_tolerance c) local_durations
  end.

(** The inner [_collect]: what the call appends to [durations] *)
Definition _collect (value : json) : list Q :=
  match _coerce_duration value with
  | Some duration => [duration]
  | None => []
  end.

Definition collect_fingerprints (fingerprints : json) : list Q :=
  match fingerprints with
  | JList l =>
      flat_map (fun fingerprint =>
                  match fingerprint with
                  | JDict f => _collect (get "duration" f)
                  | _ => []
                  end) l
  | _ => []
  end.

Definition _extract_local_durations (params : json) : list Q :=
  match params with
  | JDict p =>
      _collect (get "duration" p)
      ++ match get "scene" p with
         | JDict scene =>
             _collect (get "duration" scene)
             ++ collect_fingerprints (get "fingerprints" scene)
         | _ => collect_fingerprints (get "fingerprints" p)
         end
  | _ => []
  end.

(** [re.sub(r"[^a-zA-Z0-9]+", "-", value)]; [in_run] tells that the
    previous character was replaced *)
Fixpoint dash_runs (in_run : bool) (l : chars) : chars :=
  match l with
  | [] => []
  | c :: r =>
      if is_alnum c then c :: dash_runs false r
      else if in_run then dash_runs true r
      else "-"%char :: dash_runs true r
  end.

Definition _slugify (value : json) : res string :=
  match or_else value (JStr "") with
  | JStr s =>
      Ok (lower (of_chars (strip (is_char "-") (dash_runs false (to_chars s)))))
  | v => Exc (not_text v)
  end.

Fixpoint first_str (items : list json) : json :=
  match items with
  | [] => JStr ""
  | JStr s :: _ => JStr s
  | _ :: r => first_str r
  end.

Definition _pick_image (video : dict) : res json :=
  let thumb := get "thumbnailUrl" video in
  if truthy thumb then Ok thumb
  else
    match or_else (get_default "thumbnails" (JList []) video) (JList []) with
    | JList l => Ok (first_str l)
    | JStr s =>
        match to_chars s with
        | c :: _ => Ok (JStr (of_chars [c]))
        | [] => Ok (JStr "")
        end
    | JDict d =>
        match d with
        | (k, _) :: _ => Ok (JStr k)
        | [] => Ok (JStr "")
        end
    | v => Exc (not_iterable v)
    end.

Definition _get_video_id (item : json) : res json :=
  match item with
  | JDict d =>
      Ok (or_else (get "_id" d) (or_else (get "id" d) (get "videoId" d)))
  | _ => Exc (no_attribute item "get")
  end.

Definition video_url : string := "https://pmvhaven.com/video/".

Definition selection_option (item : dict) : res json :=
  res_bind (_get_video_id (JDict item)) (fun video_id =>
  let title := or_else (get "title" item) (JStr "") in
  res_bind (_slugify title) (fun slug =>
  let url :=
    if negb (String.eqb slug "") && truthy video_id
    then (video_url ++ slug ++ "_" ++ fmt video_id)%string
    else "" in
  res_bind (_pick_image item) (fun thumb =>
  Ok (JDict [("title", title); ("id", or_else video_id (JStr ""));
             ("url", JStr url); ("thumbnail", thumb)])))).

Fixpoint selection_options (candidates : list json) : res (list json) :=
  match candidates with
  | [] => Ok []
  | JDict item :: rest =>
      res_bind (selection_option item) (fun option =>
      res_bind (selection_options rest) (fun options =>
      Ok (option :: options)))
  | _ :: rest => selection_options rest
  end.

Definition _build_selection_options (candidates : list json) : res json :=
  res_bind (selection_options candidates) (fun options =>
  Ok (JDict [("results", JList options)])).

Definition strip_ws (s : string) : string :=
  of_chars (strip is_space (to_chars s)).

Definition nonblank (s : string) : bool := negb (String.eqb (strip_ws s) "").

Definition keep_name (name : json) : list string :=
  match name with
  | JStr s => if nonblank s then [s] else []
  | _ => []
  end.

Definition _normalize_names (value : json) : list string :=
  match value with
  | JList names => flat_map keep_name names
  | JStr s =>
      flat_map (fun item => keep_name (JStr (strip_ws (of_chars item))))
               (split_on "," (to_chars s))
  | _ => []
  end.

Definition studio_url_keys : list string :=
  ["creatorUrl"; "creatorURL"; "creatorPage"; "creatorLink"].

Fixpoint first_url (keys : list string) (video : dict) : option string :=
  match keys with
  | [] => None
  | key :: rest =>
      match get key video with
      | JStr url => if nonblank url then Some url else first_url rest video
      | _ => first_url rest video
      end
  end.

Definition _extract_studio_url (video : dict) : option string :=
  first_url studio_url_keys video.

(** [value.split("T")[0]] *)
Definition date_part (value : json) : res string :=
  match value with
  | JStr s => Ok (of_chars (take_while (fun c => negb (is_char "T" c))
                                        (to_chars s)))
  | v => Exc (no_attribute v "split")
  end.

Definition name_entry (name : string) : json := JDict [("name", JStr name)].

Definition _build_scene (video : json) : res json :=
  match video with
  | JDict v =>
      let title := or_else (get "title" v) (JStr "") in
      let video_id := or_else (get "_id" v) (JStr "") in
      res_bind (_slugify title) (fun slug =>
      let url :=
        if negb (String.eqb slug "") && truthy video_id
        then (video_url ++ slug ++ "_" ++ fmt video_id)%string
        else (video_url ++ fmt video_id)%string in
      let tags := _normalize_names (or_else (get "tags" v) (JList [])) in
      let performers :=
        _normalize_names (or_else (get "starsTags" v) (JList [])) in
      let creator := or_else (get "creator" v) (JList []) in
      let studio_name :=
        match creator with
        | JList l => hd JNull l
        | _ => creator
        end in
      let studio_url := _extract_studio_url v in
      res_bind (_pick_image v) (fun image =>
      res_bind (date_part (or_else (get "uploadDate" v)
                             (or_else (get "isoDate" v) (JStr ""))))
               (fun date =>
      let scene :=
        [("title", title); ("url", JStr url); ("image", image);
         ("date", JStr date);
         ("performers", JList (map name_entry performers));
         ("tags", JList (map name_entry tags))] in
      let description := get "description" v in
      let scene :=
        if truthy description then scene ++ [("details", description)]
        else scene in
      let scene :=
        match truthy studio_name, studio_url with
        | false, None => scene
        | has_name, _ =>
            scene ++
            [("studio",
              JDict ((if has_name then [("name", studio_name)] else [])
                     ++ match studio_url with
                        | Some u => [("url", JStr u)]
                        | None => []
                        end))]
        end in
      Ok (JDict scene))))
  | _ => Exc (no_attribute video "get")
  end.

Definition _calculate_score
    (video : dict) (query_title : string) (local_durations : list Q) : res Q :=
  let video_title := get_default "title" (JStr "") video in
  res_bind
    (if negb (String.eqb query_title "") && truthy video_title
     then match video_title with
          | JStr t => Ok (0 + ratio P (lower query_title) (lower t) * 100)
          | v => Exc (no_attribute v "lower")
          end
     else Ok 0)
    (fun score =>
  let duration := _extract_candidate_duration video in
  if negb (Nat.eqb (List.length local_durations) 0)
     && _duration_matches duration local_durations
  then Ok (score + 50)
  else Ok score).

(** [query.split()]: the maximal runs of characters that are not white
    space *)
Fixpoint words (l : chars) : list chars :=
  match l with
  | [] => []
  | c :: r =>
      if is_space c then words r
      else if starts_blank r then [c] :: words r
      else
        match words r with
        | w :: ws => (c :: w) :: ws
        | [] => [[c]]
        end
  end.

Definition _trim_query (query : string) : string :=
  let words :=
    filter (fun word => negb (String.eqb word ""))
           (map of_chars (words (to_chars query))) in
  if Nat.leb (List.length words) 1 then ""
  else join " " (tl words).



(** ** The catalog client and the search pipeline *)

Variable server : list request -> request -> response.

(** [body] is what [resp.json()] returns, [None] when it raises
    [JSONDecodeError] *)
Definition _json_from_response
    (status : Z) (body : option json) (context : string) : json :=
  match body with
  | Some data => data
  | None =>
      JDict [("error", JStr (context ++ ": non-JSON response"));
             ("status", JInt status)]
  end.

Definition _get_json (req : request) (context : string) : M json :=
  fun w =>
    let w' := {| history := history w ++ [req]; stdout := stdout w |} in
    match server (history w) req with
    | TransportError e => fail (context ++ ": request failed: " ++ e) w'
    | Http status body => (Ret (_json_from_response status body context), w')
    end.

Definition get_watch_page (video_id : json) : M json :=
  _get_json (WatchPage (fmt video_id)) "get_watch_page".

Definition search_videos (query : string) : M json :=
  _get_json (SearchVideos 32 1 query) "search_videos".

(** [re.search(r"([a-f0-9]{24})", text)] *)
Fixpoint search_hex24 (l : chars) : option chars :=
  match l with
  | [] => None
  | _ :: r =>
      if Nat.leb 24 (run_length is_hex l) then Some (firstn 24 l)
      else search_hex24 r
  end.

Definition _extract_scene_id (text : json) : res (option string) :=
  match or_else text (JStr "") with
  | JStr s => Ok (option_map of_chars (search_hex24 (to_chars s)))
  | v => Exc (not_text v)
  end.

Definition is_keychar (c : ascii) : bool :=
  is_alnum c || is_char "_" c || is_char "-" c.

(** [r"([A-Za-z0-9_-]+\.[A-Za-z0-9]+)$"] matching at the head of [l] *)
Definition key_here (l : chars) : option chars :=
  let stem := take_while is_keychar l in
  match stem, skipn (List.length stem) l with
  | _ :: _, "."%char :: r =>
      let ext := take_while is_alnum r in
      match ext, skipn (List.length ext) r with
      | _ :: _, [] => Some (stem ++ "."%char :: ext)
      | _ :: _, [nl] =>
          if N.eqb (code nl) 10 then Some (stem ++ "."%char :: ext) else None
      | _, _ => None
      end
  | _, _ => None
  end.

Fixpoint search_key (l : chars) : option chars :=
  match l with
  | [] => None
  | _ :: r =>
      match key_here l with
      | Some k => Some k
      | None => search_key r
      end
  end.

Definition _extract_storage_key (value : json) : res (option string) :=
  if negb (truthy value) then Ok None
  else
    match value with
    | JStr s =>
        let name := basename (before_question (to_chars s)) in
        match search_key name with
        | Some k => Ok (Some (of_chars k))
        | None =>
            Ok (if existsb (is_char ".") name then Some (of_chars name)
                else None)
        end
    | v => Exc (no_attribute v "split")
    end.

(** [_build_search_query] called on a value of any type *)
Definition build_query (value : json) : res string :=
  if negb (truthy value) then Ok ""
  else
    match value with
    | JStr s => Ok (_build_search_query s)
    | v => Exc (TypeError ("expected str, bytes or os.PathLike object, not "
                           ++ type_name v))
    end.

Fixpoint _iter_strings (obj : json) : list string :=
  match obj with
  | JStr s => [s]
  | JDict d =>
      (fix values (d : dict) : list string :=
         match d with
         | [] => []
         | (_, value) :: r => _iter_strings value ++ values r
         end) d
  | JList l =>
      (fix items (l : list json) : list string :=
         match l with
         | [] => []
         | value :: r => _iter_strings value ++ items r
         end) l
  | _ => []
  end.

Definition _video_contains_token (video : json) (tokens : list string) : bool :=
  match tokens with
  | [] => false
  | _ =>
      existsb (fun value => existsb (fun token => contains token value) tokens)
              (_iter_strings video)
  end.

Definition as_list (v : json) : option (list json) :=
  match v with
  | JList l => Some l
  | _ => None
  end.

Fixpoint first_list (keys : list string) (d : dict) : option (list json) :=
  match keys with
  | [] => None
  | key :: rest =>
      match as_list (get key d) with
      | Some items => Some items
      | None => first_list rest d
      end
  end.

Definition _extract_video_candidates (data : json) : res (list json) :=
  match data with
  | JDict d =>
      match first_list ["videos"; "results"; "data"] d with
      | Some items => Ok items
      | None =>
          match get "data" d with
          | JDict ((_ :: _) as nested) =>
              match first_list ["videos"; "results"] nested with
              | Some items => Ok items
              | None => Ok []
              end
          | _ => Ok []
          end
      end
  | _ => Exc (no_attribute data "get")
  end.

Definition _get_video_details (video_id : json) : M json :=
  data <- get_watch_page video_id ;;
  has_error <- lift (str_in "error" data) ;;
  if has_error : bool then ret data
  else
    match dig data ["data"; "video"] with
    | JDict video => ret (JDict video)
    | _ => fail ("Video data not found in watch-page response: " ++ fmt data)
    end.

Definition _get_video_by_id (video_id : json) : M json :=
  video <- _get_video_details video_id ;;
  has_error <- lift (str_in "error" video) ;;
  if has_error : bool then ret video
  else lift (_build_scene video).

Definition _fetch_candidate_details (candidate : json) : M (option json) :=
  video_id <- lift (_get_video_id candidate) ;;
  if negb (truthy video_id) then ret None
  else
    details <- _get_video_details video_id ;;
    has_error <- lift (str_in "error" details) ;;
    if has_error : bool then ret None
    else ret (Some details).

(** One turn of the detail loop: the [try] body, and the handler, whose
    log line evaluates [_get_video_id(c)] again.  Details that are
    returned are a mapping ([fetch_candidate_details_dict] below). *)
Definition fetch_one (c : json) : M (list dict) :=
  fun w =>
    match _fetch_candidate_details c w with
    | (Ret (Some (JDict details)), w') =>
        (Ret (if truthy (JDict details) then [details] else []), w')
    | (Ret _, w') => (Ret [], w')
    | (Exit code, w') => (Exit code, w')
    | (Raise _, w') =>
        match _get_video_id c with
        | Ok _ => (Ret [], w')
        | Exc e => (Raise e, w')
        end
    end.

Fixpoint fetch_loop (candidates : list json) : M (list dict) :=
  match candidates with
  | [] => ret []
  | c :: rest =>
      found <- fetch_one c ;;
      others <- fetch_loop rest ;;
      ret (found ++ others)
  end.

Definition scored := (Q * dict)%type.

Fixpoint score_all
    (videos : list dict) (query_title : string) (local_durations : list Q)
  : res (list scored) :=
  match videos with
  | [] => Ok []
  | video :: rest =>
      res_bind (_calculate_score video query_title local_durations)
        (fun score =>
      res_bind (score_all rest query_title local_durations) (fun others =>
      Ok ((score, video) :: others)))
  end.

(** [list.sort(key=lambda x: x[0], reverse=True)]: stable, descending *)
Fixpoint insert_desc (x : scored) (l : list scored) : list scored :=
  match l with
  | [] => [x]
  | y :: r =>
      if Qle_bool (fst y) (fst x) then x :: l else y :: insert_desc x r
  end.

Fixpoint sort_desc (l : list scored) : list scored :=
  match l with
  | [] => []
  | x :: r => insert_desc x (sort_desc r)
  end.

Definition passes (local_durations : list Q) (sv : scored) : bool :=
  _duration_matches (_extract_candidate_duration (snd sv)) local_durations.

Definition prefilter (candidates : list json) (tokens : list string)
  : list json :=
  if Nat.ltb 10 (List.length candidates)
     && negb (Nat.eqb (List.length tokens) 0)
  then
    match filter (fun c => _video_contains_token c tokens) candidates with
    | [] => candidates
    | filtered => filtered
    end
  else candidates.

Definition decide
    (candidates : list json) (local_durations : list Q)
    (scored_candidates : list scored) : res json :=
  match scored_candidates with
  | [] => _build_selection_options (firstn 3 candidates)
  | (best_score, best_video) :: _ =>
      let match_duration := _extract_candidate_duration best_video in
      if negb (Nat.eqb (List.length local_durations) 0)
         && negb (_duration_matches match_duration local_durations)
      then
        match find (passes local_durations) scored_candidates with
        | Some (_, video) => _build_scene (JDict video)
        | None =>
            let top_candidates := firstn 3 (sort_desc scored_candidates) in
            _build_selection_options
              (map (fun sv => JDict (snd sv)) top_candidates)
        end
      else _build_scene (JDict best_video)
  end.

Definition _handle_search_results
    (candidates : list json) (tokens : list string)
    (local_durations : list Q) : M json :=
  let filtered_candidates := prefilter candidates tokens in
  let candidates_to_process := firstn 5 filtered_candidates in
  let query_title := join " " tokens in
  results_with_details <- fetch_loop candidates_to_process ;;
  match results_with_details with
  | [] => fail "No valid video details found from search results"
  | _ =>
      scored_candidates <-
        lift (score_all results_with_details query_title local_durations) ;;
      lift (decide candidates local_durations (sort_desc scored_candidates))
  end.

Fixpoint retry_loop
    (attempts : nat) (query : string) (tokens : list string)
    (local_durations : list Q) : M json :=
  match attempts with
  | O => fail ("No search results for query '" ++ query ++ "' after retries")
  | S remaining =>
      data <- search_videos query ;;
      has_error <- lift (str_in "error" data) ;;
      if has_error : bool then ret data
      else
        candidates <- lift (_extract_video_candidates data) ;;
        match candidates with
        | _ :: _ => _handle_search_results candidates tokens local_durations
        | [] => retry_loop remaining query tokens local_durations
        end
  end.

Definition _search_videos_with_retries
    (query : string) (tokens : list string) (local_durations : list Q)
  : M json :=
  retry_loop 3 query tokens local_durations.

(** ** Entry points and the dispatcher *)

(** The text of a value that is a [str] where it is used:
    [_extract_scene_id] has raised on any other value that is not falsy. *)
Definition text_of (v : json) : string :=
  match v with
  | JStr s => s
  | _ => ""
  end.

Definition sceneByFragment (params : json) : M json :=
  let filename := or_else (dig params ["filename"]) (JStr "") in
  let title := or_else (dig params ["title"]) (JStr "") in
  let local_durations := _extract_local_durations params in
  from_filename <- lift (_extract_scene_id filename) ;;
  scene_id <-
    match from_filename with
    | Some id => ret (Some id)
    | None => lift (_extract_scene_id title)
    end ;;
  match scene_id with
  | Some id => _get_video_by_id (JStr id)
  | None =>
      key_of_filename <- lift (_extract_storage_key filename) ;;
      storage_key <-
        match key_of_filename with
        | Some k => ret (Some k)
        | None => lift (_extract_storage_key title)
        end ;;
      let query_source :=
        match storage_key with
        | Some k => JStr k
        | None => or_else title filename
        end in
      query <- lift (build_query query_source) ;;
      let tokens := _extract_filename_tokens (text_of filename) in
      if String.eqb query ""
      then fail "Did not find a usable search query from fragment input"
      else _search_videos_with_retries query tokens local_durations
  end.

(** [url.rstrip("/").split("/")[-1]], then [.split("?")[0]] *)
Definition url_slug (url : string) : string :=
  let trimmed := rstrip (is_char "/") (to_chars url) in
  of_chars (before_question (last (split_on "/" trimmed) [])).

Definition sceneByURL (params : json) : M json :=
  let url := or_else (dig params ["url"]) (JStr "") in
  let local_durations := _extract_local_durations params in
  scene_id <- lift (_extract_scene_id url) ;;
  match scene_id with
  | Some id => _get_video_by_id (JStr id)
  | None =>
      let slug := url_slug (text_of url) in
      if negb (String.eqb slug "")
      then
        let query := _build_search_query slug in
        _search_videos_with_retries query [] local_durations
      else fail ("Did not find scene ID or slug from URL " ++ fmt url)
  end.

(** What [sys.stdin.read()] and [json.loads] give *)
Inductive stdin_input : Type :=
| Blank
| Malformed (msg : string)
| Parsed (params : json).

Definition exn_name (e : exn) : string :=
  match e with
  | AttributeError _ => "AttributeError"
  | TypeError _ => "TypeError"
  end.

Definition exn_text (e : exn) : string :=
  match e with
  | AttributeError msg => msg
  | TypeError msg => msg
  end.

(** The body of the [try] of [__main__]; [args] is [sys.argv[1:]] *)
Definition dispatch (args : list string) (input : stdin_input) : M unit :=
  match args with
  | [] => fail "Missing scrape method argument"
  | calledFunction :: _ =>
      match input with
      | Blank => fail "No JSON input provided on stdin"
      | Malformed msg => fail ("Invalid JSON input: " ++ msg)
      | Parsed params =>
          result <-
            (if String.eqb calledFunction "sceneByURL"
             then sceneByURL params
             else if String.eqb calledFunction "sceneByFragment"
             then sceneByFragment params
             else fail ("Unknown scrape method '" ++ calledFunction ++ "'")) ;;
          jprint result
      end
  end.

(** [__main__]: the exit status of the process and its standard output *)
Definition main (args : list string) (input : stdin_input)
  : Z * list json :=
  match dispatch args input initial with
  | (Ret _, w) => (0%Z, stdout w)
  | (Exit code, w) => (code, stdout w)
  | (Raise e, w) =>
      match jprint (error_object
                      ("Unhandled exception in scraper: " ++ exn_name e
                       ++ ": " ++ exn_text e)) w with
      | (_, w') => (1%Z, stdout w')
      end
  end.

End Scraper.

(** ** Sample platform and catalogs, used to run the model *)

Module Sample.

(** Equal strings are similar, others are not; no string is a number. *)
Definition platform : Platform :=
  {| float_of_str := fun _ => None;
     py_str := fun _ => "";
     ratio := fun a b => if String.eqb a b then 1 else 0 |}.

Definition start : world := initial.

Definition video_a : dict :=
  [("_id", JStr "a"); ("title", JStr "ABC"); ("duration", JInt 500)].

Definition video_b : dict :=
  [("_id", JStr "b"); ("title", JStr "other"); ("duration", JInt 125)].

Definition watch_page (video : dict) : response :=
  Http 200 (Some (JDict [("data", JDict [("video", JDict video)])])).

Definition found : json :=
  JDict [("videos", JList [JDict [("_id", JStr "a")];
                           JDict [("_id", JStr "b")]])].

Definition nothing : json := JDict [("videos", JList [])].

Definition watch (id : string) : response :=
  if String.eqb id "a" then watch_page video_a
  else if String.eqb id "b" then watch_page video_b
  else Http 404 None.

(** A catalog whose search finds nothing twice, then two records. *)
Definition catalog (h : list request) (r : request) : response :=
  match r with
  | WatchPage id => watch id
  | SearchVideos _ _ _ =>
      if Nat.ltb (List.length (filter is_search h)) 2
      then Http 200 (Some nothing)
      else Http 200 (Some found)
  end.

(** A catalog that answers every request with an error document. *)
Definition refusing_catalog (h : list request) (r : request) : response :=
  Http 200 (Some (error_object "not found")).

(** A catalog whose answers are not JSON. *)
Definition broken_catalog (h : list request) (r : request) : response :=
  Http 502 None.

Definition by_id : json :=
  JDict [("url", JStr "https://pmvhaven.com/video/x_0123456789abcdef01234567")].

(** A catalog whose search never finds anything. *)
Definition empty_catalog (h : list request) (r : request) : response :=
  match r with
  | WatchPage id => watch id
  | SearchVideos _ _ _ => Http 200 (Some nothing)
  end.

End Sample.

(** ** Definitions used to state the properties *)

Definition thicc_filename : string :=
  "tomtom10_-_Thicc_5_1766671291932_folhscuz.mp4".



(** Keys every resolved scene carries *)
Definition scene_keys : list string :=
  ["title"; "url"; "image"; "date"; "performers"; "tags"].

(** A string, or a value [or] replaces by the empty string *)
Definition textual (v : json) : bool :=
  match v with
  | JStr _ => true
  | _ => negb (truthy v)
  end.

(** A value a [for] loop can iterate over, or a value [or] replaces by
    the empty list *)
Definition listlike (v : json) : bool :=
  match v with
  | JList _ | JStr _ | JDict _ => true
  | _ => negb (truthy v)
  end.



(** What a computation may do to the world: it issues requests that
    satisfy [p] and leaves standard output alone, unless it exits, which
    it does with status 1 after printing one error object. *)
Definition behaved {A} (p : request -> bool) (m : M A) : Prop :=
  forall w o w',
    m w = (o, w') ->
    (exists new, history w' = history w ++ new /\ forallb p new = true)
    /\ match o with
       | Exit code =>
           code = 1%Z
           /\ exists msg, stdout w' = stdout w ++ [error_object msg]
       | _ => stdout w' = stdout w
       end.

(** A search response without an error and without candidates *)
Definition empty_result (data : json) : Prop :=
  str_in "error" data = Ok false /\ _extract_video_candidates data = Ok [].

(** A run of eight or more digits between two white-space characters *)
Definition has_flanked (l : chars) : Prop :=
  exists before c run d after,
    l = before ++ c :: run ++ d :: after
    /\ is_space c = true /\ forallb is_digit run = true
    /\ (8 <= List.length run)%nat /\ is_space d = true.

(** White space, or nothing, comes first *)
Definition blank_or_end (l : chars) : Prop :=
  match l with
  | x :: _ => is_space x = true
  | [] => True
  end.

(** Every white-space character is a single blank that no white space
    follows *)
Fixpoint collapsed (l : chars) : bool :=
  match l with
  | [] => true
  | c :: r =>
      (if is_space c then Ascii.eqb c " " && negb (starts_blank r) else true)
      && collapsed r
  end.

(** [[a-z0-9-]] *)
Definition is_slug_char (c : ascii) : bool :=
  in_range 48 57 c || in_range 97 122 c || is_char "-" c.

Definition starts_with (p : ascii -> bool) (l : chars) : bool :=
  match l with
  | d :: _ => p d
  | [] => false
  end.

(** No two characters of class [p] follow each other *)
Fixpoint no_double (p : ascii -> bool) (l : chars) : bool :=
  match l with
  | [] => true
  | c :: r => negb (p c && starts_with p r) && no_double p r
  end.

(** [s] is one of the strings [_iter_strings] finds in a document: the
    document itself, an item of a list or a value of a mapping, at any
    depth *)
Inductive string_in : json -> string -> Prop :=
| string_here s : string_in (JStr s) s
| string_in_list l v s : In v l -> string_in v s -> string_in (JList l) s
| string_in_dict d k v s :
    In (k, v) d -> string_in v s -> string_in (JDict d) s.

Definition is_dict (v : json) : bool :=
  match v with
  | JDict _ => true
  | _ => false
  end.

(** The shape of one entry of a selection object *)
Definition is_option (v : json) : Prop :=
  exists title id url thumbnail,
    v = JDict [("title", title); ("id", id); ("url", JStr url);
               ("thumbnail", thumbnail)].


(** A word of a query: not empty and free of white space *)
Definition is_word_run (w : chars) : Prop :=
  w <> [] /\ forallb (fun c => negb (is_space c)) w = true.

(** A computation that issues at most [n] requests, all of them for
    watch pages *)
Definition fetches {A} (n : nat) (m : M A) : Prop :=
  forall w,
    exists new,
      history (snd (m w)) = history w ++ new
      /\ (List.length new <= n)%nat /\ forallb is_watch new = true.


(** The creator a scene names as its studio: the first item of a list of
    creators, or the creator itself *)
Definition creator_name (video : dict) : json :=
  match or_else (get "creator" video) (JList []) with
  | JList l => hd JNull l
  | creator => creator
  end.

(** A computation that issues at most [s] search requests and then at
    most [n] requests for watch pages, and no other request *)
Definition asks {A} (s n : nat) (m : M A) : Prop :=
  forall w,
    exists searches watches,
      history (snd (m w)) = history w ++ searches ++ watches
      /\ (List.length searches <= s)%nat /\ (List.length watches <= n)%nat
      /\ forallb is_search searches = true
      /\ forallb is_watch watches = true.

(** * Properties *)

(** ** Token extractor *)

(** C5.  On the file name of the specification the token extractor
    returns the tokens of the first digit run that an underscore and an
    alphanumeric run follow, which is ["5"] with suffix ["1766671291932"],
    and not the time stamp with its suffix ["folhscuz"]. *)
Theorem extract_filename_tokens_thicc :
  _extract_filename_tokens thicc_filename
  = ["5_1766671291932"; "5"; "1766671291932"]
  /\ _extract_filename_tokens thicc_filename
     <> ["1766671291932_folhscuz"; "1766671291932"; "folhscuz"].
Proof.
  split.
  - vm_compute. reflexivity.
  - vm_compute. discriminate.
Qed.

(** ** Duration extractor *)

Section Durations.

Variable P : Platform.




End Durations.


(** ** Scorer *)

Lemma within_tolerance_spec c l :
  within_tolerance c l = true <-> (Qabs (c - l) <= 10)%Q.
Proof. unfold within_tolerance. apply Qle_bool_iff. Qed.

(** The examples of the specification: with a tolerance of 10 seconds a
    local duration of 120.0 matches 129.9 and does not match 131.0; a
    record that matches on title and duration scores above one that
    matches on title only. *)
Lemma duration_and_score_examples :
  _duration_matches (Some 129.9%Q) [120%Q] = true
  /\ _duration_matches (Some 131%Q) [120%Q] = false
  /\ _calculate_score Sample.platform
       [("title", JStr "Thicc 5"); ("duration", JInt 125)] "thicc 5" [120%Q]
     = Ok 150%Q
  /\ _calculate_score Sample.platform
       [("title", JStr "Thicc 5"); ("duration", JInt 500)] "thicc 5" [120%Q]
     = Ok 100%Q.
Proof. repeat split; reflexivity. Qed.




(** ** Scene builder *)

Section SceneBuilder.

Variable P : Platform.

Lemma textual_or_else v :
  textual v = true -> exists s, or_else v (JStr "") = JStr s.
Proof.
  unfold or_else, textual.
  destruct v as [| b | z | q | s | l | d]; simpl; intros H;
    try (rewrite (proj1 (negb_true_iff _) H); eauto).
  - eauto.
  - destruct (negb (String.eqb s "")); eauto.
Qed.

Lemma pick_image_listlike video :
  listlike (get "thumbnails" video) = true ->
  exists image, _pick_image video = Ok image.
Proof.
  unfold _pick_image, get, get_default, or_else.
  destruct (truthy (match lookup "thumbnailUrl" video with
                    | Some v => v | None => JNull end)); [eauto|].
  destruct (lookup "thumbnails" video) as [v|]; simpl; [|eauto].
  destruct v as [| b | z | q | s | l | d]; simpl; intros H;
    try (rewrite (proj1 (negb_true_iff _) H); eauto).
  - eauto.
  - destruct (negb (String.eqb s "")); simpl; [|eauto].
    destruct (to_chars s); eauto.
  - destruct l; simpl; eauto.
  - destruct d as [|[k v] d]; simpl; eauto.
Qed.

Lemma date_part_textual v w :
  textual v = true -> textual w = true ->
  exists date, date_part (or_else v (or_else w (JStr ""))) = Ok date.
Proof.
  intros Hv Hw. destruct (textual_or_else w Hw) as [s Hs]. rewrite Hs.
  unfold or_else. destruct (truthy v) eqn:Ht.
  - destruct v; simpl in *; try discriminate; eauto; rewrite Ht in Hv;
      discriminate.
  - simpl. eauto.
Qed.

(** C10.  A scene the builder returns carries the keys [title], [url],
    [image], [date], [performers] and [tags], whatever fields the record
    has, and its date is the empty string when the record has neither
    [uploadDate] nor [isoDate].  The builder returns a scene whenever
    [title], [uploadDate] and [isoDate] are absent, falsy or strings and
    [thumbnails] is absent, falsy, a list, a string or a mapping. *)
Theorem build_scene_keys (video : dict) :
  (forall scene,
      _build_scene P (JDict video) = Ok scene ->
      exists fields,
        scene = JDict fields
        /\ Forall (fun key => has_key key fields = true) scene_keys
        /\ (lookup "uploadDate" video = None ->
            lookup "isoDate" video = None ->
            lookup "date" fields = Some (JStr "")))
  /\ (textual (get "title" video) = true ->
      textual (get "uploadDate" video) = true ->
      textual (get "isoDate" video) = true ->
      listlike (get "thumbnails" video) = true ->
      exists scene, _build_scene P (JDict video) = Ok scene).
Proof.
  split.
  - intros scene. unfold _build_scene.
    destruct (_slugify _) as [slug|]; simpl; [|discriminate].
    destruct (_pick_image video) as [image|]; simpl; [|discriminate].
    destruct (date_part _) as [date|] eqn:Hdate; simpl; [|discriminate].
    intros [= <-]. eexists. split; [reflexivity|]. split.
    + destruct (truthy (get "description" video));
        destruct (truthy _); destruct (_extract_studio_url video);
        repeat constructor.
    + intros Hu Hi. unfold get, get_default in Hdate.
      rewrite Hu, Hi in Hdate. simpl in Hdate. injection Hdate as <-.
      destruct (truthy (get "description" video));
        destruct (truthy _); destruct (_extract_studio_url video);
        reflexivity.
  - intros Ht Hu Hi Hl. unfold _build_scene.
    assert (Hs : exists slug', _slugify (or_else (get "title" video) (JStr ""))
                               = Ok slug').
    { destruct (textual_or_else _ Ht) as [s ->]. unfold _slugify.
      unfold or_else. destruct (truthy (JStr s)); eauto. }
    destruct Hs as [slug' ->]. simpl.
    destruct (pick_image_listlike video Hl) as [image ->]. simpl.
    destruct (date_part_textual _ _ Hu Hi) as [date ->]. simpl. eauto.
Qed.

End SceneBuilder.

Lemma build_scene_keys_witness :
  (forall scene,
      _build_scene Sample.platform (JDict [("_id", JStr "abc")]) = Ok scene ->
      exists fields,
        scene = JDict fields
        /\ Forall (fun key => has_key key fields = true) scene_keys
        /\ (lookup "uploadDate" [("_id", JStr "abc")] = None ->
            lookup "isoDate" [("_id", JStr "abc")] = None ->
            lookup "date" fields = Some (JStr "")))
  /\ exists scene,
      _build_scene Sample.platform (JDict [("_id", JStr "abc")]) = Ok scene.
Proof.
  pose proof (build_scene_keys Sample.platform [("_id", JStr "abc")])
    as [Hkeys Hret].
  split; [exact Hkeys|].
  apply Hret; reflexivity.
Defined.

(** ** Ranking *)





(** Candidates with equal scores keep their order: the sort is stable. *)
Lemma insert_desc_stable q x l :
  filter (fun y => Qeq_bool (fst y) q) (insert_desc x l)
  = filter (fun y => Qeq_bool (fst y) q) (x :: l).
Proof.
  induction l as [|y r IH]; [reflexivity|]. simpl insert_desc.
  destruct (Qle_bool (fst y) (fst x)) eqn:Hle; [reflexivity|].
  simpl in *. rewrite IH.
  destruct (Qeq_bool (fst x) q) eqn:Hx; [|reflexivity].
  destruct (Qeq_bool (fst y) q) eqn:Hy; [|reflexivity].
  apply Qeq_bool_iff in Hx, Hy.
  assert (Hxy : Qle_bool (fst y) (fst x) = true)
    by (apply Qle_bool_iff; rewrite Hx, Hy; apply Qle_refl).
  congruence.
Qed.

Lemma sort_desc_stable q l :
  filter (fun y => Qeq_bool (fst y) q) (sort_desc l)
  = filter (fun y => Qeq_bool (fst y) q) l.
Proof.
  induction l as [|x r IH]; [reflexivity|]. simpl sort_desc.
  rewrite insert_desc_stable. simpl. now rewrite IH.
Qed.



(** ** Decision policy *)

Section Resolution.

Variable P : Platform.
Variable server : list request -> request -> response.










Lemma in_firstn {A} (x : A) n l : In x (firstn n l) -> In x l.
Proof.
  intros H. rewrite <- (firstn_skipn n l). apply in_or_app. now left.
Qed.





End Resolution.



(** ** Effects of the pipeline *)

Section Effects.

Variable P : Platform.
Variable server : list request -> request -> response.

Lemma behaved_ret {A} p (a : A) : behaved p (ret a).
Proof.
  intros w o w' [= <- <-]. split; [|reflexivity].
  exists []. now rewrite app_nil_r.
Qed.

Lemma behaved_lift {A} p (r : res A) : behaved p (lift r).
Proof.
  intros w o w' H. unfold lift in H.
  destruct r; injection H as <- <-; (split; [|reflexivity]);
    exists []; now rewrite app_nil_r.
Qed.

Lemma behaved_fail {A} p msg : behaved p (@fail A msg).
Proof.
  intros w o w' [= <- <-]. simpl. split; [|eauto].
  exists []. now rewrite app_nil_r.
Qed.

Lemma behaved_bind {A B} p (m : M A) (k : A -> M B) :
  behaved p m -> (forall a, behaved p (k a)) -> behaved p (bind m k).
Proof.
  intros Hm Hk w o w' H. unfold bind in H.
  destruct (m w) as [[a|c|e] w1] eqn:Hmw;
    destruct (Hm _ _ _ Hmw) as [(n1 & Hh1 & Hp1) Hs1].
  - destruct (Hk a _ _ _ H) as [(n2 & Hh2 & Hp2) Hs2]. split.
    + exists (n1 ++ n2). rewrite Hh2, Hh1, app_assoc. split; [reflexivity|].
      rewrite forallb_app, Hp1, Hp2. reflexivity.
    + destruct o; rewrite <- Hs1; exact Hs2.
  - injection H as <- <-. split; eauto.
  - injection H as <- <-. split; eauto.
Qed.

Lemma behaved_weaken {A} (p p' : request -> bool) (m : M A) :
  (forall r, p r = true -> p' r = true) -> behaved p m -> behaved p' m.
Proof.
  intros Hpp Hm w o w' H. destruct (Hm _ _ _ H) as [(new & Hh & Hp) Hs].
  split; [|exact Hs]. exists new. split; [exact Hh|].
  rewrite forallb_forall in *. auto.
Qed.

Lemma behaved_get_json p req context :
  p req = true -> behaved p (_get_json server req context).
Proof.
  intros Hp w o w' H. unfold _get_json in H.
  destruct (server (history w) req) as [e|status body].
  - injection H as <- <-. simpl. split; [|eauto].
    exists [req]. simpl. now rewrite Hp.
  - injection H as <- <-. simpl. split; [|reflexivity].
    exists [req]. simpl. now rewrite Hp.
Qed.

Lemma behaved_get_video_details video_id :
  behaved is_watch (_get_video_details P server video_id).
Proof.
  unfold _get_video_details, get_watch_page.
  apply behaved_bind; [now apply behaved_get_json|]. intros data.
  apply behaved_bind; [apply behaved_lift|]. intros [|].
  - apply behaved_ret.
  - destruct (dig data ["data"; "video"]);
      first [apply behaved_ret | apply behaved_fail].
Qed.

Lemma behaved_get_video_by_id video_id :
  behaved is_watch (_get_video_by_id P server video_id).
Proof.
  unfold _get_video_by_id.
  apply behaved_bind; [apply behaved_get_video_details|]. intros video.
  apply behaved_bind; [apply behaved_lift|]. intros [|].
  - apply behaved_ret.
  - apply behaved_lift.
Qed.

Lemma behaved_fetch_candidate_details candidate :
  behaved is_watch (_fetch_candidate_details P server candidate).
Proof.
  unfold _fetch_candidate_details.
  apply behaved_bind; [apply behaved_lift|]. intros video_id.
  destruct (negb (truthy video_id)); [apply behaved_ret|].
  apply behaved_bind; [apply behaved_get_video_details|]. intros details.
  apply behaved_bind; [apply behaved_lift|]. intros [|]; apply behaved_ret.
Qed.

(** The details of a candidate, when there are any, are a mapping. *)
Lemma fetch_candidate_details_dict candidate w details w' :
  _fetch_candidate_details P server candidate w = (Ret (Some details), w') ->
  exists video, details = JDict video.
Proof.
  unfold _fetch_candidate_details, bind at 1, lift at 1.
  destruct (_get_video_id candidate) as [video_id|]; [|discriminate].
  destruct (negb (truthy video_id)); [discriminate|].
  unfold bind at 1, _get_video_details, bind at 1.
  destruct (get_watch_page P server video_id w) as [[data|c|e] w1];
    try discriminate.
  unfold bind at 1, lift at 1.
  destruct (str_in "error" data) as [[|]|] eqn:Herr; try discriminate.
  - unfold ret at 1, bind at 1, lift at 1. rewrite Herr. discriminate.
  - destruct (dig data ["data"; "video"]) as [| | | | | |video];
      try discriminate.
    unfold ret at 1, bind at 1, lift at 1.
    destruct (str_in "error" (JDict video)) as [[|]|]; try discriminate.
    intros [= <- _]. eauto.
Qed.

Lemma behaved_fetch_one c : behaved is_watch (fetch_one P server c).
Proof.
  intros w o w' H. unfold fetch_one in H.
  destruct (_fetch_candidate_details P server c w) as [[a|code|e] w1] eqn:Hf;
    destruct (behaved_fetch_candidate_details c _ _ _ Hf) as [Hh Hs].
  - destruct a as [[]|]; injection H as <- <-; split; auto.
  - injection H as <- <-. split; auto.
  - destruct (_get_video_id c); injection H as <- <-; split; auto.
Qed.

Lemma behaved_fetch_loop candidates :
  behaved is_watch (fetch_loop P server candidates).
Proof.
  induction candidates as [|c r IH]; simpl.
  - apply behaved_ret.
  - apply behaved_bind; [apply behaved_fetch_one|]. intros found.
    apply behaved_bind; [exact IH|]. intros others. apply behaved_ret.
Qed.

Lemma behaved_handle_search_results candidates tokens ds :
  behaved is_watch (_handle_search_results P server candidates tokens ds).
Proof.
  unfold _handle_search_results.
  apply behaved_bind; [apply behaved_fetch_loop|]. intros [|v rs].
  - apply behaved_fail.
  - apply behaved_bind; [apply behaved_lift|]. intros sc. apply behaved_lift.
Qed.

Lemma behaved_retry_loop attempts query tokens ds :
  behaved (fun _ => true) (retry_loop P server attempts query tokens ds).
Proof.
  induction attempts as [|n IH]; simpl.
  - apply behaved_fail.
  - apply behaved_bind; [now apply behaved_get_json|]. intros data.
    apply behaved_bind; [apply behaved_lift|]. intros [|].
    + apply behaved_ret.
    + apply behaved_bind; [apply behaved_lift|]. intros [|c cs].
      * exact IH.
      * eapply behaved_weaken; [|apply behaved_handle_search_results].
        reflexivity.
Qed.

(** ** Search with retries *)

Lemma search_videos_history query w o w1 :
  search_videos server query w = (o, w1) ->
  history w1 = history w ++ [SearchVideos 32 1 query].
Proof.
  unfold search_videos, _get_json.
  destruct (server (history w) _) as [e|status body];
    intros [= <- <-]; reflexivity.
Qed.

Lemma retry_step_empty n query tokens ds w data w1 :
  search_videos server query w = (Ret data, w1) ->
  empty_result data ->
  retry_loop P server (S n) query tokens ds w
  = retry_loop P server n query tokens ds w1.
Proof.
  intros Hs [He Hc]. simpl. unfold bind at 1. rewrite Hs.
  unfold bind at 1. rewrite He. unfold lift at 1.
  unfold bind at 1. rewrite Hc. unfold lift at 1. reflexivity.
Qed.

Lemma retry_step_found n query tokens ds w data w1 candidates :
  search_videos server query w = (Ret data, w1) ->
  str_in "error" data = Ok false ->
  _extract_video_candidates data = Ok candidates ->
  candidates <> [] ->
  retry_loop P server (S n) query tokens ds w
  = _handle_search_results P server candidates tokens ds w1.
Proof.
  intros Hs He Hc Hne. simpl. unfold bind at 1. rewrite Hs.
  unfold bind at 1. rewrite He. unfold lift at 1.
  unfold bind at 1. rewrite Hc. unfold lift at 1.
  destruct candidates; [congruence | reflexivity].
Qed.

Lemma retry_loop_trace n query tokens ds w o w' :
  retry_loop P server n query tokens ds w = (o, w') ->
  exists k watches,
    (k <= n)%nat
    /\ history w' = history w ++ repeat (SearchVideos 32 1 query) k ++ watches
    /\ forallb is_watch watches = true.
Proof.
  revert w. induction n as [|n IH]; intros w H.
  - simpl in H. injection H as <- <-. exists 0%nat, []. simpl.
    rewrite app_nil_r. auto.
  - simpl in H. unfold bind at 1 in H.
    destruct (search_videos server query w) as [[data|c|e] w1] eqn:Hs;
      pose proof (search_videos_history _ _ _ _ Hs) as Hh.
    2,3: injection H as <- <-; exists 1%nat, []; simpl; split; [lia|];
         rewrite Hh; auto.
    unfold bind at 1 in H. unfold lift at 1 in H.
    destruct (str_in "error" data) as [[|]|].
    1,3: injection H as <- <-; exists 1%nat, []; simpl; split; [lia|];
         rewrite Hh; auto.
    unfold bind at 1 in H. unfold lift at 1 in H.
    destruct (_extract_video_candidates data) as [[|c cs]|].
    + destruct (IH _ H) as (k & watches & Hk & Hw & Hf).
      exists (S k), watches. split; [lia|]. split; [|exact Hf].
      rewrite Hw, Hh, <- app_assoc. reflexivity.
    + destruct (behaved_handle_search_results _ _ _ _ _ _ H)
        as [(new & Hn & Hf) _].
      exists 1%nat, new. split; [lia|]. split; [|exact Hf].
      rewrite Hn, Hh, <- app_assoc. reflexivity.
    + injection H as <- <-. exists 1%nat, []. simpl. split; [lia|].
      rewrite Hh. auto.
Qed.

(** C3.  The retry loop issues at most three searches, all with the same
    query, before any detail request.  When the first two searches give an
    empty candidate list and the third gives candidates, the resolution is
    that of the third search's candidates; when all three give an empty
    list, the process prints the error naming the query and exits with
    status 1. *)
Theorem search_videos_with_retries_attempts query tokens ds w :
  (forall o w',
      _search_videos_with_retries P server query tokens ds w = (o, w') ->
      exists k watches,
        (k <= 3)%nat
        /\ history w'
           = history w ++ repeat (SearchVideos 32 1 query) k ++ watches
        /\ forallb is_watch watches = true)
  /\ (forall d1 w1 d2 w2 d3 w3 candidates,
        search_videos server query w = (Ret d1, w1) -> empty_result d1 ->
        search_videos server query w1 = (Ret d2, w2) -> empty_result d2 ->
        search_videos server query w2 = (Ret d3, w3) ->
        str_in "error" d3 = Ok false ->
        _extract_video_candidates d3 = Ok candidates ->
        candidates <> [] ->
        _search_videos_with_retries P server query tokens ds w
        = _handle_search_results P server candidates tokens ds w3)
  /\ (forall d1 w1 d2 w2 d3 w3,
        search_videos server query w = (Ret d1, w1) -> empty_result d1 ->
        search_videos server query w1 = (Ret d2, w2) -> empty_result d2 ->
        search_videos server query w2 = (Ret d3, w3) -> empty_result d3 ->
        _search_videos_with_retries P server query tokens ds w
        = (Exit 1,
           {| history := history w3;
              stdout := stdout w3
                        ++ [error_object ("No search results for query '"
                                          ++ query ++ "' after retries")] |})).
Proof.
  unfold _search_videos_with_retries. repeat split.
  - intros o w'. apply retry_loop_trace.
  - intros d1 w1 d2 w2 d3 w3 candidates H1 E1 H2 E2 H3 He Hc Hne.
    rewrite (retry_step_empty _ _ _ _ _ _ _ H1 E1).
    rewrite (retry_step_empty _ _ _ _ _ _ _ H2 E2).
    exact (retry_step_found _ _ _ _ _ _ _ _ H3 He Hc Hne).
  - intros d1 w1 d2 w2 d3 w3 H1 E1 H2 E2 H3 E3.
    rewrite (retry_step_empty _ _ _ _ _ _ _ H1 E1).
    rewrite (retry_step_empty _ _ _ _ _ _ _ H2 E2).
    rewrite (retry_step_empty _ _ _ _ _ _ _ H3 E3).
    reflexivity.
Qed.

(** ** Exit status and standard output *)

Lemma behaved_search_videos_with_retries query tokens ds :
  behaved (fun _ => true)
          (_search_videos_with_retries P server query tokens ds).
Proof. apply behaved_retry_loop. Qed.

Lemma behaved_sceneByFragment params :
  behaved (fun _ => true) (sceneByFragment P server params).
Proof.
  unfold sceneByFragment.
  apply behaved_bind; [apply behaved_lift|]. intros from_filename.
  apply behaved_bind.
  { destruct from_filename; [apply behaved_ret | apply behaved_lift]. }
  intros [id|].
  - eapply behaved_weaken; [|apply behaved_get_video_by_id]. reflexivity.
  - apply behaved_bind; [apply behaved_lift|]. intros key_of_filename.
    apply behaved_bind.
    { destruct key_of_filename; [apply behaved_ret | apply behaved_lift]. }
    intros storage_key.
    apply behaved_bind; [apply behaved_lift|]. intros query.
    destruct (String.eqb query "");
      [apply behaved_fail | apply behaved_search_videos_with_retries].
Qed.

Lemma behaved_sceneByURL params :
  behaved (fun _ => true) (sceneByURL P server params).
Proof.
  unfold sceneByURL.
  apply behaved_bind; [apply behaved_lift|]. intros [id|].
  - eapply behaved_weaken; [|apply behaved_get_video_by_id]. reflexivity.
  - destruct (negb _);
      [apply behaved_search_videos_with_retries | apply behaved_fail].
Qed.

Lemma dispatch_output args input o w :
  dispatch P server args input initial = (o, w) ->
  match o with
  | Ret _ => exists result, stdout w = [result]
  | Exit code => code = 1%Z /\ exists msg, stdout w = [error_object msg]
  | Raise _ => stdout w = []
  end.
Proof.
  assert (Hfail : forall msg,
             @fail unit msg initial = (o, w) ->
             match o with
             | Ret _ => exists result, stdout w = [result]
             | Exit code =>
                 code = 1%Z /\ exists msg, stdout w = [error_object msg]
             | Raise _ => stdout w = []
             end).
  { intros msg [= <- <-]. simpl. eauto. }
  unfold dispatch. destruct args as [|calledFunction rest]; [apply Hfail|].
  destruct input as [|msg|params]; try apply Hfail.
  set (entry := if String.eqb calledFunction "sceneByURL" then _ else _).
  assert (He : behaved (fun _ => true) entry).
  { subst entry. destruct (String.eqb calledFunction "sceneByURL");
      [apply behaved_sceneByURL|].
    destruct (String.eqb calledFunction "sceneByFragment");
      [apply behaved_sceneByFragment | apply behaved_fail]. }
  unfold bind. destruct (entry initial) as [[result|code|e] w1] eqn:Hrun;
    destruct (He _ _ _ Hrun) as [_ Hs]; simpl in Hs.
  - unfold jprint. intros [= <- <-]. simpl. rewrite Hs. simpl. eauto.
  - intros [= <- <-]. exact Hs.
  - intros [= <- <-]. exact Hs.
Qed.

Lemma or_else_text s : or_else (JStr s) (JStr "") = JStr s.
Proof.
  unfold or_else. simpl. destruct (String.eqb s "") eqn:H; [|reflexivity].
  apply String.eqb_eq in H. now subst.
Qed.

(** C4, as the code has it.  Every invocation writes exactly one JSON
    value to standard output and exits with status 0 or 1.  The status is
    1 exactly when the dispatch ended through [fail] or an exception, and
    then the value is a failure object [{"error": message}]; no exception
    passes the dispatcher.  A document of the client layer that contains
    ["error"] (the object built for a response that is not JSON, or what
    the catalog sent) is returned as the result of a lookup by id and of a
    search: it is printed and the process exits with status 0. *)
Theorem main_exit_contract :
  (forall args input,
      exists code obj,
        main P server args input = (code, [obj])
        /\ ((code = 0%Z
             /\ exists w, dispatch P server args input initial = (Ret tt, w)
                          /\ stdout w = [obj])
            \/ (code = 1%Z
                /\ (exists msg, obj = error_object msg)
                /\ forall w,
                    dispatch P server args input initial <> (Ret tt, w))))
  /\ (forall url id status body,
        _extract_scene_id (JStr url) = Ok (Some id) ->
        server [] (WatchPage id) = Http status body ->
        str_in "error" (_json_from_response status body "get_watch_page")
        = Ok true ->
        main P server ["sceneByURL"] (Parsed (JDict [("url", JStr url)]))
        = (0%Z, [_json_from_response status body "get_watch_page"]))
  /\ (forall url status body,
        _extract_scene_id (JStr url) = Ok None ->
        url_slug url <> "" ->
        server [] (SearchVideos 32 1 (_build_search_query (url_slug url)))
        = Http status body ->
        str_in "error" (_json_from_response status body "search_videos")
        = Ok true ->
        main P server ["sceneByURL"] (Parsed (JDict [("url", JStr url)]))
        = (0%Z, [_json_from_response status body "search_videos"])).
Proof.
  split; [|split].
  - intros args input. unfold main.
    destruct (dispatch P server args input initial) as [[[]|code|e] w] eqn:Hd;
      pose proof (dispatch_output _ _ _ _ Hd) as Ho; simpl in Ho.
    + destruct Ho as [result Hr]. exists 0%Z, result. split.
      * now rewrite Hr.
      * left. split; [reflexivity|]. exists w. auto.
    + destruct Ho as [-> [msg Hm]]. exists 1%Z, (error_object msg). split.
      * now rewrite Hm.
      * right. split; [reflexivity|]. split; [eauto|]. discriminate.
    + simpl. rewrite Ho. simpl. eexists 1%Z, _. split; [reflexivity|].
      right. split; [reflexivity|]. split; [eauto|]. discriminate.
  - intros url id status body Hid Hserver Herr.
    unfold main, dispatch. simpl String.eqb. cbv iota.
    unfold sceneByURL. simpl dig. rewrite or_else_text.
    unfold bind at 2. rewrite Hid. unfold lift at 1.
    unfold _get_video_by_id, _get_video_details, get_watch_page, _get_json.
    unfold bind. simpl fmt. simpl history. rewrite Hserver.
    unfold lift. rewrite Herr. unfold ret. rewrite Herr. reflexivity.
  - intros url status body Hid Hslug Hserver Herr.
    unfold main, dispatch. simpl String.eqb. cbv iota.
    unfold sceneByURL. simpl dig. rewrite or_else_text.
    unfold bind at 2. rewrite Hid. unfold lift at 1.
    cbn [text_of]. apply String.eqb_neq in Hslug. rewrite Hslug. cbn [negb].
    unfold _search_videos_with_retries. cbn [retry_loop].
    unfold search_videos, _get_json, bind, initial. cbn [history stdout].
    rewrite Hserver. unfold lift. rewrite Herr. reflexivity.
Qed.

End Effects.

Lemma search_videos_with_retries_attempts_witness :
  let search := SearchVideos 32 1 "Thicc 5" in
  let searched := {| history := [search; search; search]; stdout := [] |} in
  (exists k watches,
      (k <= 3)%nat
      /\ history (snd (_search_videos_with_retries Sample.platform
                         Sample.catalog "Thicc 5" ["abc"] [120%Q]
                         Sample.start))
         = history Sample.start ++ repeat search k ++ watches
      /\ forallb is_watch watches = true)
  /\ _search_videos_with_retries Sample.platform Sample.catalog
       "Thicc 5" ["abc"] [120%Q] Sample.start
     = _handle_search_results Sample.platform Sample.catalog
         [JDict [("_id", JStr "a")]; JDict [("_id", JStr "b")]]
         ["abc"] [120%Q] searched
  /\ _search_videos_with_retries Sample.platform Sample.empty_catalog
       "Thicc 5" ["abc"] [120%Q] Sample.start
     = (Exit 1,
        {| history := [search; search; search];
           stdout := [error_object
                        "No search results for query 'Thicc 5' after retries"]
        |}).
Proof.
  intros search searched.
  assert (Hempty : empty_result Sample.nothing) by (split; reflexivity).
  destruct (search_videos_with_retries_attempts
              Sample.platform Sample.catalog "Thicc 5" ["abc"] [120%Q]
              Sample.start) as (Htrace & Hfound & _).
  destruct (search_videos_with_retries_attempts
              Sample.platform Sample.empty_catalog "Thicc 5" ["abc"] [120%Q]
              Sample.start) as (_ & _ & Hnone).
  split; [|split].
  - apply (Htrace (fst (_search_videos_with_retries Sample.platform
                          Sample.catalog "Thicc 5" ["abc"] [120%Q]
                          Sample.start))).
    apply surjective_pairing.
  - apply (Hfound Sample.nothing
                  {| history := [search]; stdout := [] |}
                  Sample.nothing
                  {| history := [search; search]; stdout := [] |}
                  Sample.found searched);
      try reflexivity; try exact Hempty. discriminate.
  - apply (Hnone Sample.nothing
                 {| history := [search]; stdout := [] |}
                 Sample.nothing
                 {| history := [search; search]; stdout := [] |}
                 Sample.nothing searched);
      try reflexivity; exact Hempty.
Defined.

(** C4, as stated, fails: an error document of the catalog, and the error
    object built for a response that is not JSON, are printed as results
    of a lookup by id, and the process exits with status 0. *)
Lemma main_error_object_exit_zero :
  ~ (forall P server args input code msg,
        main P server args input = (code, [error_object msg]) ->
        code = 1%Z)
  /\ main Sample.platform Sample.broken_catalog ["sceneByURL"]
       (Parsed Sample.by_id)
     = (0%Z, [JDict [("error", JStr "get_watch_page: non-JSON response");
                     ("status", JInt 502)]]).
Proof.
  split; [|reflexivity].
  intros H.
  specialize (H Sample.platform Sample.refusing_catalog ["sceneByURL"]
                (Parsed Sample.by_id) 0%Z "not found" eq_refl).
  discriminate.
Qed.

Lemma main_exit_contract_witness :
  main Sample.platform Sample.broken_catalog ["sceneByURL"]
    (Parsed Sample.by_id)
  = (0%Z, [JDict [("error", JStr "get_watch_page: non-JSON response");
                  ("status", JInt 502)]])
  /\ main Sample.platform Sample.broken_catalog ["sceneByURL"]
       (Parsed (JDict [("url", JStr "https://pmvhaven.com/video/thicc-5")]))
     = (0%Z, [JDict [("error", JStr "search_videos: non-JSON response");
                     ("status", JInt 502)]]).
Proof.
  destruct (main_exit_contract Sample.platform Sample.broken_catalog)
    as (_ & Hid & Hsearch).
  split.
  - apply (Hid "https://pmvhaven.com/video/x_0123456789abcdef01234567"
               "0123456789abcdef01234567" 502%Z None); reflexivity.
  - apply (Hsearch "https://pmvhaven.com/video/thicc-5" 502%Z None);
      try reflexivity. discriminate.
Defined.

(** ** Query builder *)

Lemma space_not_word c : is_space c = true -> is_word c = false.
Proof.
  destruct c as [[] [] [] [] [] [] [] []]; vm_compute;
    solve [reflexivity | discriminate].
Qed.

Lemma digit_is_word c : is_digit c = true -> is_word c = true.
Proof.
  destruct c as [[] [] [] [] [] [] [] []]; vm_compute;
    solve [reflexivity | discriminate].
Qed.

Lemma digit_not_space c : is_digit c = true -> is_space c = false.
Proof.
  destruct c as [[] [] [] [] [] [] [] []]; vm_compute;
    solve [reflexivity | discriminate].
Qed.

Lemma is_char_eq a c : is_char a c = true <-> c = a.
Proof. unfold is_char. apply Ascii.eqb_eq. Qed.

Lemma is_char_neq a c : is_char a c = false <-> c <> a.
Proof. unfold is_char. apply Ascii.eqb_neq. Qed.

Section Runs.

Variable p : ascii -> bool.

Lemma take_drop_while l : take_while p l ++ drop_while p l = l.
Proof.
  induction l as [|c r IH]; simpl; [reflexivity|].
  destruct (p c); simpl; [now rewrite IH | reflexivity].
Qed.

Lemma take_while_all l : forallb p (take_while p l) = true.
Proof.
  induction l as [|c r IH]; simpl; [reflexivity|].
  destruct (p c) eqn:Hc; simpl; [now rewrite Hc | reflexivity].
Qed.

Lemma skipn_take_while l :
  skipn (List.length (take_while p l)) l = drop_while p l.
Proof.
  induction l as [|c r IH]; simpl; [reflexivity|].
  destruct (p c); simpl; [exact IH | reflexivity].
Qed.

Lemma drop_while_head l c r :
  drop_while p l = c :: r -> p c = false.
Proof.
  induction l as [|x l' IH]; simpl; [discriminate|].
  destruct (p x) eqn:Hx; [exact IH|]. intros [= <- <-]. exact Hx.
Qed.

Lemma take_while_app run x rest :
  forallb p run = true -> p x = false ->
  take_while p (run ++ x :: rest) = run.
Proof.
  induction run as [|c r IH]; simpl; intros Hr Hx.
  - now rewrite Hx.
  - apply andb_true_iff in Hr as [Hc Hr]. rewrite Hc. now rewrite IH.
Qed.

Lemma run_length_app run rest :
  forallb p run = true ->
  (List.length run <= run_length p (run ++ rest))%nat.
Proof.
  unfold run_length. induction run as [|c r IH]; simpl; intros Hr; [lia|].
  apply andb_true_iff in Hr as [Hc Hr]. rewrite Hc. simpl.
  specialize (IH Hr). lia.
Qed.

Lemma drop_while_idem l : drop_while p (drop_while p l) = drop_while p l.
Proof.
  induction l as [|c r IH]; simpl; [reflexivity|].
  destruct (p c) eqn:Hc; [exact IH|]. simpl. now rewrite Hc.
Qed.

Lemma drop_while_suffix l :
  exists t, l = t ++ drop_while p l /\ forallb p t = true.
Proof.
  exists (take_while p l). split.
  - symmetry. apply take_drop_while.
  - apply take_while_all.
Qed.

Lemma rstrip_prefix l :
  exists t, l = rstrip p l ++ t /\ forallb p t = true.
Proof.
  unfold rstrip. destruct (drop_while_suffix (rev l)) as (t & Ht & Hp).
  exists (rev t). split.
  - rewrite <- rev_app_distr, <- Ht. symmetry. apply rev_involutive.
  - rewrite forallb_forall in *. intros x Hx. apply Hp.
    now apply in_rev.
Qed.

Lemma rstrip_idem l : rstrip p (rstrip p l) = rstrip p l.
Proof.
  unfold rstrip. now rewrite rev_involutive, drop_while_idem.
Qed.

Lemma rstrip_cons c l : p c = false -> rstrip p (c :: l) = c :: rstrip p l.
Proof.
  intros Hc. unfold rstrip. simpl.
  induction (rev l) as [|x r IH]; simpl.
  - now rewrite Hc.
  - destruct (p x); [exact IH|]. simpl. now rewrite rev_app_distr.
Qed.

Lemma strip_idem l : strip p (strip p l) = strip p l.
Proof.
  unfold strip, lstrip.
  assert (H : drop_while p (rstrip p (drop_while p l))
              = rstrip p (drop_while p l)).
  { destruct (drop_while p l) as [|c r] eqn:Hd.
    - reflexivity.
    - pose proof (drop_while_head _ _ _ Hd) as Hc.
      rewrite (rstrip_cons _ _ Hc). simpl. now rewrite Hc. }
  rewrite H. apply rstrip_idem.
Qed.

End Runs.

Lemma flanked_here_spec l :
  flanked_here l = true <->
  exists c run d after,
    l = c :: run ++ d :: after
    /\ is_space c = true /\ forallb is_digit run = true
    /\ (8 <= List.length run)%nat /\ is_space d = true.
Proof.
  split.
  - destruct l as [|c r]; unfold flanked_here; [discriminate|].
    unfold run_length. cbv zeta.
    rewrite skipn_take_while. intros H.
    apply andb_true_iff in H as [H Hd]. apply andb_true_iff in H as [Hc Hn].
    destruct (drop_while is_digit r) as [|d after] eqn:Hdrop; [discriminate|].
    exists c, (take_while is_digit r), d, after. repeat split; auto.
    + now rewrite <- Hdrop, take_drop_while.
    + apply take_while_all.
    + now apply Nat.leb_le.
  - intros (c & run & d & after & -> & Hc & Hrun & Hn & Hd).
    unfold flanked_here, run_length. cbv zeta.
    assert (Hnd : is_digit d = false).
    { destruct (is_digit d) eqn:E; [|reflexivity].
      apply digit_not_space in E. congruence. }
    rewrite (take_while_app _ _ _ _ Hrun Hnd), Hc.
    rewrite (proj2 (Nat.leb_le _ _) Hn). simpl.
    rewrite skipn_app, Nat.sub_diag, skipn_all. simpl. exact Hd.
Qed.

Lemma has_flanked_here l : flanked_here l = true -> has_flanked l.
Proof.
  intros H. apply flanked_here_spec in H as (c & run & d & after & H).
  exists [], c, run, d, after. exact H.
Qed.

Lemma has_flanked_app a l b : has_flanked l -> has_flanked (a ++ l ++ b).
Proof.
  intros (before & c & run & d & after & -> & H).
  exists (a ++ before), c, run, d, (after ++ b). split; [|exact H].
  rewrite <- !app_assoc. simpl. rewrite <- !app_assoc. reflexivity.
Qed.

Lemma has_flanked_cons c l : has_flanked l -> has_flanked (c :: l).
Proof.
  intros H. apply (has_flanked_app [c] l []) in H.
  now rewrite app_nil_r in H.
Qed.

Lemma has_flanked_inv c l :
  has_flanked (c :: l) -> flanked_here (c :: l) = true \/ has_flanked l.
Proof.
  intros (before & x & run & d & after & Heq & H).
  destruct before as [|b before]; simpl in Heq; injection Heq as -> ->.
  - left. apply flanked_here_spec. exists x, run, d, after. auto.
  - right. exists before, x, run, d, after. auto.
Qed.

Lemma search_flanked_some l i : search_flanked l = Some i -> has_flanked l.
Proof.
  revert i. induction l as [|c r IH]; simpl; intros i; [discriminate|].
  destruct (flanked_here (c :: r)) eqn:Hh.
  - intros _. now apply has_flanked_here.
  - destruct (search_flanked r) as [n|]; simpl; [|discriminate].
    intros _. apply has_flanked_cons. now apply (IH n).
Qed.

Lemma search_flanked_none l : search_flanked l = None <-> ~ has_flanked l.
Proof.
  split.
  - induction l as [|c r IH]; simpl.
    + intros _ (before & x & run & d & after & H & _).
      destruct before; discriminate.
    + destruct (flanked_here (c :: r)) eqn:Hh; [discriminate|].
      destruct (search_flanked r); simpl; [discriminate|].
      intros _ H. apply has_flanked_inv in H as [H|H]; [congruence|].
      now apply IH.
  - intros H. destruct (search_flanked l) as [i|] eqn:Hs; [|reflexivity].
    exfalso. apply H. now apply (search_flanked_some l i).
Qed.

Lemma search_flanked_at l i :
  search_flanked l = Some i -> flanked_here (skipn i l) = true.
Proof.
  revert i. induction l as [|c r IH]; intros i; [discriminate|]. simpl.
  destruct (flanked_here (c :: r)) eqn:Hh.
  - intros [= <-]. exact Hh.
  - destruct (search_flanked r) as [n|]; simpl; [|discriminate].
    intros [= <-]. simpl. now apply IH.
Qed.

Lemma blank_not_flanked : ~ has_flanked [" "%char].
Proof.
  intros (before & x & run & d & after & Heq & _).
  apply (f_equal (@List.length ascii)) in Heq.
  rewrite length_app in Heq. simpl in Heq. rewrite length_app in Heq.
  simpl in Heq. lia.
Qed.

(** The text before the leftmost flanked run holds no flanked run, also
    when white space follows it. *)
Lemma flanked_prefix_blank l i :
  search_flanked l = Some i -> ~ has_flanked (firstn i l ++ [" "%char]).
Proof.
  revert i. induction l as [|c r IH]; intros i; [discriminate|]. simpl.
  destruct (flanked_here (c :: r)) eqn:Hh.
  - intros [= <-]. simpl. exact blank_not_flanked.
  - destruct (search_flanked r) as [n|] eqn:Hs; simpl; [|discriminate].
    intros [= <-]. simpl. intros H.
    apply has_flanked_inv in H as [H|H]; [|exact (IH n eq_refl H)].
    apply flanked_here_spec in H
      as (c' & run & d & after & Heq & Hc & Hrun & Hn & Hd).
    injection Heq as <- Heq.
    pose proof (search_flanked_at _ _ Hs) as Hat.
    apply flanked_here_spec in Hat as (c2 & run2 & d2 & after2 & Hsk & Hc2 & _).
    assert (Hr : r = firstn n r ++ c2 :: run2 ++ d2 :: after2)
      by (rewrite <- Hsk; symmetry; apply firstn_skipn).
    assert (Hgoal : flanked_here (c :: r) = true); [|congruence].
    apply flanked_here_spec.
    destruct after as [|z after' _] using rev_ind.
    + apply app_inj_tail in Heq as [Heq _].
      exists c, run, c2, (run2 ++ d2 :: after2).
      rewrite Hr at 1. rewrite Heq. auto.
    + change (run ++ d :: after' ++ [z]) with (run ++ (d :: after') ++ [z])
        in Heq.
      rewrite app_assoc in Heq. apply app_inj_tail in Heq as [Heq _].
      exists c, run, d, (after' ++ c2 :: run2 ++ d2 :: after2).
      rewrite Hr at 1. rewrite Heq, <- app_assoc. auto.
Qed.

(** A run of eight digits that follows white space is found by the
    search at a word boundary, at the latest where it starts. *)
Lemma boundary_found prev before x run after :
  is_space x = true -> forallb is_digit run = true ->
  (8 <= List.length run)%nat ->
  exists i,
    search_boundary prev (before ++ x :: run ++ after) = Some i
    /\ (i <= List.length before + 1)%nat.
Proof.
  intros Hx Hrun Hn. revert prev.
  induction before as [|b before IH]; intros prev.
  - cbn [app search_boundary].
    destruct (boundary_here prev _); [exists 0%nat; split; [reflexivity|lia]|].
    assert (Hb : boundary_here (Some x) (run ++ after) = true).
    { unfold boundary_here. apply andb_true_iff. split.
      - unfold word_before, word_at. rewrite (space_not_word _ Hx).
        destruct run as [|d run']; [simpl in Hn; lia|].
        apply andb_true_iff in Hrun as [Hd _].
        change ((d :: run') ++ after) with (d :: (run' ++ after)).
        cbv iota. now rewrite (digit_is_word _ Hd).
      - apply Nat.leb_le.
        pose proof (run_length_app is_digit run after Hrun). lia. }
    destruct run as [|d run']; [simpl in Hn; lia|].
    cbn [app search_boundary] in *. rewrite Hb.
    exists 1%nat. split; [reflexivity|lia].
  - cbn [app search_boundary]. fold (@app ascii).
    destruct (boundary_here prev _);
      [exists 0%nat; split; [reflexivity|simpl; lia]|].
    destruct (IH (Some b)) as (i & -> & Hi). exists (S i). simpl.
    split; [reflexivity|lia].
Qed.

Lemma has_flanked_blank_inv l :
  has_flanked (l ++ [" "%char]) ->
  exists before x run after,
    l = before ++ x :: run ++ after
    /\ is_space x = true /\ forallb is_digit run = true
    /\ (8 <= List.length run)%nat
    /\ match after with
       | d :: _ => is_space d = true
       | [] => True
       end.
Proof.
  intros (before & x & run & d & after & Heq & Hx & Hrun & Hn & Hd).
  destruct after as [|z after' _] using rev_ind.
  - change (before ++ x :: run ++ [d]) with (before ++ (x :: run) ++ [d])
      in Heq.
    rewrite app_assoc in Heq. apply app_inj_tail in Heq as [-> _].
    exists before, x, run, []. rewrite app_nil_r. auto.
  - assert (Heq' : l ++ [" "%char]
                   = (before ++ x :: run ++ d :: after') ++ [z]).
    { rewrite Heq, <- app_assoc. simpl. rewrite <- app_assoc. reflexivity. }
    apply app_inj_tail in Heq' as [-> _].
    exists before, x, run, (d :: after'). auto.
Qed.

Lemma length_firstn_le {A} n (l : list A) : (List.length (firstn n l) <= n)%nat.
Proof. rewrite length_firstn. lia. Qed.

(** What is kept before the digits holds no flanked run, also when white
    space follows it. *)
Lemma cut_not_flanked l : ~ has_flanked (cut_at_digits l ++ [" "%char]).
Proof.
  unfold cut_at_digits.
  destruct (search_flanked l) as [i|] eqn:Hf.
  - now apply flanked_prefix_blank.
  - intros H.
    apply has_flanked_blank_inv in H
      as (before & x & run & after & Heq & Hx & Hrun & Hn & _).
    destruct (search_boundary None l) as [i|] eqn:Hb.
    + assert (Hl : l = before ++ x :: run ++ (after ++ skipn i l)).
      { rewrite <- (firstn_skipn i l) at 1. rewrite Heq, <- app_assoc.
        simpl. now rewrite <- app_assoc. }
      destruct (boundary_found None before x run (after ++ skipn i l)
                               Hx Hrun Hn) as (j & Hj & Hle).
      rewrite <- Hl, Hb in Hj. injection Hj as <-.
      pose proof (length_firstn_le i l) as Hlen. rewrite Heq in Hlen.
      rewrite length_app in Hlen. simpl in Hlen.
      rewrite length_app in Hlen. lia.
    + destruct (boundary_found None before x run after Hx Hrun Hn)
        as (j & Hj & _).
      rewrite <- Heq, Hb in Hj. discriminate.
Qed.

Lemma collapse_digits run r d post :
  forallb is_digit run = true -> is_space d = true ->
  collapse false r ++ [" "%char] = run ++ d :: post ->
  exists rest, r = run ++ rest /\ blank_or_end rest.
Proof.
  intros Hrun Hd. revert r.
  induction run as [|z run IH]; intros r Heq.
  - exists r. split; [reflexivity|]. destruct r as [|y r']; simpl; [exact I|].
    simpl in Heq. destruct (is_space y) eqn:Hy; [reflexivity|].
    injection Heq as -> _. congruence.
  - simpl in Hrun. apply andb_true_iff in Hrun as [Hz Hrun].
    pose proof (digit_not_space _ Hz) as Hzs.
    destruct r as [|y r']; simpl in Heq.
    + injection Heq as <- _. discriminate.
    + destruct (is_space y) eqn:Hy.
      * injection Heq as <- _. discriminate.
      * injection Heq as -> Heq. destruct (IH Hrun _ Heq) as (rest & -> & Hr).
        exists rest. auto.
Qed.

Lemma collapse_skip run r d post :
  run <> [] -> forallb is_digit run = true -> is_space d = true ->
  collapse true r ++ [" "%char] = run ++ d :: post ->
  exists ws rest,
    r = ws ++ run ++ rest /\ forallb is_space ws = true /\ blank_or_end rest.
Proof.
  intros Hne Hrun Hd. destruct run as [|z run]; [congruence|].
  simpl in Hrun. apply andb_true_iff in Hrun as [Hz Hrun].
  pose proof (digit_not_space _ Hz) as Hzs.
  induction r as [|y r IH]; simpl; intros Heq.
  - injection Heq as <- _. discriminate.
  - destruct (is_space y) eqn:Hy.
    + destruct (IH Heq) as (ws & rest & -> & Hws & Hr).
      exists (y :: ws), rest. simpl. rewrite Hy. auto.
    + injection Heq as -> Heq.
      destruct (collapse_digits _ _ _ _ Hrun Hd Heq) as (rest & -> & Hr).
      exists [], rest. auto.
Qed.

(** A blank, a digit run and white space: a flanked run whatever white
    space stands between the blank and the digits. *)
Lemma flanked_through c ws run rest :
  is_space c = true -> forallb is_space ws = true ->
  forallb is_digit run = true -> (8 <= List.length run)%nat ->
  blank_or_end rest ->
  has_flanked (c :: ws ++ run ++ rest ++ [" "%char]).
Proof.
  intros Hc Hws Hrun Hn Hr.
  assert (Hend : exists d after, rest ++ [" "%char] = d :: after
                                 /\ is_space d = true).
  { destruct rest as [|x rest']; simpl in *; eauto. }
  destruct Hend as (d & after & -> & Hd).
  destruct ws as [|y ws' _] using rev_ind.
  - exists [], c, run, d, after. auto.
  - rewrite forallb_app in Hws. apply andb_true_iff in Hws as [_ Hy].
    simpl in Hy. rewrite andb_true_r in Hy.
    exists (c :: ws'), y, run, d, after. split; [|auto].
    simpl. now rewrite <- app_assoc.
Qed.

Lemma collapse_flanked b l :
  has_flanked (collapse b l ++ [" "%char]) -> has_flanked (l ++ [" "%char]).
Proof.
  revert b. induction l as [|c r IH]; intros b; simpl; [auto|].
  destruct (is_space c) eqn:Hc.
  - destruct b.
    + intros H. apply has_flanked_cons. now apply (IH true).
    + simpl. intros H. apply has_flanked_inv in H as [H|H].
      * apply flanked_here_spec in H
          as (c' & run & d & after & Heq & _ & Hrun & Hn & Hd).
        injection Heq as _ Heq.
        assert (Hne : run <> []) by (destruct run; [simpl in Hn; lia | congruence]).
        destruct (collapse_skip _ _ _ _ Hne Hrun Hd Heq)
          as (ws & rest & -> & Hws & Hr).
        rewrite <- !app_assoc. now apply flanked_through.
      * apply has_flanked_cons. now apply (IH true).
  - simpl. intros H. apply has_flanked_inv in H as [H|H].
    + apply flanked_here_spec in H as (c' & run & d & after & Heq & Hc' & _).
      injection Heq as <- _. congruence.
    + apply has_flanked_cons. now apply (IH false).
Qed.

Lemma strip_flanked l :
  has_flanked (strip is_space l ++ [" "%char]) -> has_flanked (l ++ [" "%char]).
Proof.
  unfold strip, lstrip. intros H.
  destruct (drop_while_suffix is_space l) as (t & Hl & _).
  set (y := drop_while is_space l) in *.
  destruct (rstrip_prefix is_space y) as (t2 & Hy & Ht2).
  apply has_flanked_blank_inv in H
    as (before & x & run & after & Heq & Hx & Hrun & Hn & Hafter).
  assert (Hend : exists d tail, after ++ t2 ++ [" "%char] = d :: tail
                                /\ is_space d = true).
  { destruct after as [|a after']; simpl in *; [|eauto].
    destruct t2 as [|a t2']; simpl in *; [eauto|].
    apply andb_true_iff in Ht2 as [Ha _]. eauto. }
  destruct Hend as (d & tail & Hd & Hds).
  exists (t ++ before), x, run, d, tail. split; [|auto].
  rewrite <- Hd, Hl, Hy, Heq. rewrite <- !app_assoc. simpl.
  rewrite <- !app_assoc. reflexivity.
Qed.

(** Collapsing and trimming white space creates no flanked run. *)
Lemma normalize_not_flanked l :
  ~ has_flanked (l ++ [" "%char]) ->
  ~ has_flanked (strip is_space (collapse false l) ++ [" "%char]).
Proof.
  intros H Hq. apply H. apply (collapse_flanked false).
  now apply strip_flanked.
Qed.

Lemma build_chars_not_flanked value :
  ~ has_flanked (build_chars value ++ [" "%char]).
Proof.
  unfold build_chars. apply normalize_not_flanked, cut_not_flanked.
Qed.

Lemma basename_no_slash l : ~ In "/"%char (basename l).
Proof.
  induction l as [|c r IH]; simpl; [auto|].
  destruct (existsb (is_char "/") r) eqn:Hr; [exact IH|].
  assert (Hn : ~ In "/"%char r).
  { intros Hin. assert (existsb (is_char "/") r = true); [|congruence].
    apply existsb_exists. exists "/"%char. split; [exact Hin|].
    now apply is_char_eq. }
  destruct (is_char "/" c) eqn:Hc; [exact Hn|].
  intros [->|Hin]; [|auto]. apply is_char_neq in Hc. congruence.
Qed.

Lemma basename_id l : ~ In "/"%char l -> basename l = l.
Proof.
  destruct l as [|c r]; simpl; [reflexivity|]. intros H.
  destruct (existsb (is_char "/") r) eqn:Hr.
  - apply existsb_exists in Hr as (x & Hx & Hc). apply is_char_eq in Hc.
    subst x. exfalso. apply H. now right.
  - destruct (is_char "/" c) eqn:Hc; [|reflexivity].
    apply is_char_eq in Hc. subst c. exfalso. apply H. now left.
Qed.

Lemma in_strip_ext c l : In c (strip_ext l) -> In c l.
Proof.
  induction l as [|x r IH]; simpl; [auto|].
  destruct (_ && _); simpl; [intros []|]. intros [->|H]; auto.
Qed.

Lemma strip_ext_single stem ext :
  ~ In "."%char stem -> ext <> [] -> ~ In "."%char ext ->
  strip_ext (stem ++ "."%char :: ext) = stem.
Proof.
  intros Hs He Hx. induction stem as [|c stem IH]; simpl.
  - assert (Hall : forallb (fun d => negb (is_char "." d)) ext = true).
    { apply forallb_forall. intros d Hd. apply negb_true_iff, is_char_neq.
      intros ->. auto. }
    rewrite Hall. destruct ext; [congruence | reflexivity].
  - assert (Hc : is_char "." c = false).
    { apply is_char_neq. intros ->. apply Hs. now left. }
    rewrite Hc. simpl. rewrite IH; [reflexivity|].
    intros H. apply Hs. now right.
Qed.

Lemma in_skipn {A} (x : A) n l : In x (skipn n l) -> In x l.
Proof.
  intros H. rewrite <- (firstn_skipn n l). apply in_or_app. now right.
Qed.

Lemma in_after_sep c l t : after_sep l = Some t -> In c t -> In c l.
Proof.
  revert t. induction l as [|x r IH]; intros t; [discriminate|].
  cbn [after_sep]. destruct (is_prefix separator (x :: r)).
  - intros [= <-] Hin. right.
    destruct r as [|y [|z r']]; simpl in *; auto.
  - intros H Hin. right. eapply IH; eauto.
Qed.

Lemma separator_head x r : is_prefix separator (x :: r) = true -> x = "_"%char.
Proof.
  unfold separator. cbn [is_prefix]. intros H.
  apply andb_true_iff in H as [H _]. apply Ascii.eqb_eq in H. now subst.
Qed.

Lemma after_sep_none l : ~ In "_"%char l -> after_sep l = None.
Proof.
  induction l as [|x r IH]; [reflexivity|]. intros H. cbn [after_sep].
  destruct (is_prefix separator (x :: r)) eqn:Hx.
  - apply separator_head in Hx. subst x. exfalso. apply H. now left.
  - apply IH. intros Hin. apply H. now right.
Qed.

Lemma in_despace c l :
  In c (map despace l) ->
  c <> "_"%char /\ c <> "-"%char /\ (c = " "%char \/ In c l).
Proof.
  intros H. apply in_map_iff in H as (x & <- & Hx). unfold despace.
  destruct (is_char "_" x) eqn:H1; simpl.
  - repeat split; try discriminate. now left.
  - destruct (is_char "-" x) eqn:H2.
    + repeat split; try discriminate. now left.
    + apply is_char_neq in H1, H2. auto.
Qed.

Lemma despace_id l :
  ~ In "_"%char l -> ~ In "-"%char l -> map despace l = l.
Proof.
  intros H1 H2. induction l as [|x r IH]; simpl; [reflexivity|].
  rewrite IH;
    [| intros H; apply H1; now right | intros H; apply H2; now right].
  unfold despace.
  assert (E1 : is_char "_" x = false)
    by (apply is_char_neq; intros ->; apply H1; now left).
  assert (E2 : is_char "-" x = false)
    by (apply is_char_neq; intros ->; apply H2; now left).
  now rewrite E1, E2.
Qed.

Lemma in_cut_at_digits c l : In c (cut_at_digits l) -> In c l.
Proof.
  unfold cut_at_digits.
  destruct (match search_flanked l with
            | Some i => Some i
            | None => search_boundary None l
            end); [apply in_firstn | auto].
Qed.

Lemma in_collapse c b l :
  In c (collapse b l) -> c = " "%char \/ (In c l /\ is_space c = false).
Proof.
  revert b. induction l as [|x r IH]; intros b; simpl; [intros []|].
  destruct (is_space x) eqn:Hx.
  - destruct b.
    + intros H. destruct (IH _ H) as [->|[Hin Hs]]; auto.
    + intros [<-|H]; [now left|].
      destruct (IH _ H) as [->|[Hin Hs]]; auto.
  - intros [<-|H]; [auto|].
    destruct (IH _ H) as [->|[Hin Hs]]; auto.
Qed.

Lemma in_drop_while p c l : In c (drop_while p l) -> In c l.
Proof.
  destruct (drop_while_suffix p l) as (t & Hl & _). intros H.
  rewrite Hl. apply in_or_app. now right.
Qed.

Lemma in_strip p c l : In c (strip p l) -> In c l.
Proof.
  unfold strip, lstrip, rstrip. intros H. apply in_rev in H.
  apply in_drop_while in H. apply in_rev in H.
  now apply in_drop_while in H.
Qed.

(** Where the characters of a query come from *)
Lemma in_build_chars c value :
  In c (build_chars value) ->
  c = " "%char
  \/ (In c (strip_ext (basename value)) /\ c <> "_"%char /\ c <> "-"%char).
Proof.
  unfold build_chars. intros H.
  apply in_strip, in_collapse in H as [->|[H _]]; [now left|].
  apply in_cut_at_digits, in_despace in H as (H1 & H2 & [->|H]); [now left|].
  right. split; [|auto].
  destruct (after_sep (strip_ext (basename value))) as [t|] eqn:Ht; [|exact H].
  eapply in_after_sep; eauto.
Qed.

Lemma query_chars s :
  to_chars (_build_search_query s) = build_chars (to_chars s).
Proof.
  unfold _build_search_query, to_chars, of_chars.
  destruct (String.eqb s "") eqn:Hs.
  - apply String.eqb_eq in Hs. subst s. reflexivity.
  - apply list_ascii_of_string_of_list_ascii.
Qed.

(** The examples of the specification *)
Lemma build_search_query_examples :
  _build_search_query "TaT_-_(Tits,Ass,&Tats).mp4" = "(Tits,Ass,&Tats)"
  /\ _build_search_query thicc_filename = "Thicc 5".
Proof. split; reflexivity. Qed.

(** C6, as the code has it.  A query never contains the path separator
    ["/"]; it contains no ["."] when the base name of the input has a
    single ["."], followed by an extension; and a run of eight or more
    digits that follows white space in it is followed by a character that
    is not white space: no such run ends the query or stands between two
    white-space characters. *)
Theorem build_search_query_invariants (s : string) :
  let q := to_chars (_build_search_query s) in
  ~ In "/"%char q
  /\ (forall stem ext,
        basename (to_chars s) = stem ++ "."%char :: ext ->
        ext <> [] -> ~ In "."%char stem -> ~ In "."%char ext ->
        ~ In "."%char q)
  /\ (forall before c run after,
        q = before ++ c :: run ++ after ->
        is_space c = true -> forallb is_digit run = true ->
        (8 <= List.length run)%nat ->
        exists x after', after = x :: after' /\ is_space x = false).
Proof.
  cbv zeta. rewrite query_chars. repeat split.
  - intros H. apply in_build_chars in H as [H|(H & _)]; [discriminate|].
    apply in_strip_ext in H. exact (basename_no_slash _ H).
  - intros stem ext Hb He Hs Hx H.
    apply in_build_chars in H as [H|(H & _)]; [discriminate|].
    rewrite Hb, (strip_ext_single _ _ Hs He Hx) in H. auto.
  - intros before c run after Hq Hc Hrun Hn.
    pose proof (build_chars_not_flanked (to_chars s)) as Hnf.
    rewrite Hq in Hnf.
    destruct after as [|x after'].
    + exfalso. apply Hnf. exists before, c, run, " "%char, [].
      rewrite app_nil_r, <- app_assoc. auto.
    + exists x, after'. split; [reflexivity|].
      destruct (is_space x) eqn:Hx; [|reflexivity].
      exfalso. apply Hnf. exists before, c, run, x, (after' ++ [" "%char]).
      rewrite <- app_assoc. simpl. rewrite <- app_assoc. auto.
Qed.

Lemma build_search_query_invariants_witness :
  (let q := to_chars (_build_search_query thicc_filename) in
   ~ In "/"%char q /\ ~ In "."%char q)
  /\ exists x after',
      to_chars "x" = x :: after' /\ is_space x = false.
Proof.
  split.
  - destruct (build_search_query_invariants thicc_filename)
      as (Hslash & Hdot & _).
    split; [exact Hslash|].
    apply (Hdot (to_chars "tomtom10_-_Thicc_5_1766671291932_folhscuz")
                (to_chars "mp4")).
    + reflexivity.
    + discriminate.
    + vm_compute. intuition discriminate.
    + vm_compute. intuition discriminate.
  - destruct (build_search_query_invariants "a_12345678x_12345678_b.mp4")
      as (_ & _ & Hrun).
    apply (Hrun (to_chars "a") " "%char (to_chars "12345678") (to_chars "x"));
      reflexivity.
Defined.

(** C6, as stated, fails: a query can keep an extension of a name with
    several dots, and can end with eight or more digits. *)
Lemma build_search_query_keeps_extension_and_digits :
  ~ (forall s,
        let q := to_chars (_build_search_query s) in
        ~ In "/"%char q /\ strip_ext q = q
        /\ (run_length is_digit (rev q) < 8)%nat)
  /\ _build_search_query "abc12345678.mp4" = "abc12345678"
  /\ _build_search_query "12345678_12345678_y.mp4" = "12345678"
  /\ _build_search_query "a.b.c" = "a.b".
Proof.
  split; [|repeat split; reflexivity].
  intros H. destruct (H "abc12345678.mp4") as (_ & _ & Hd).
  vm_compute in Hd. lia.
Qed.

Lemma collapse_collapsed b l :
  collapsed (collapse b l) = true
  /\ (b = true -> starts_blank (collapse b l) = false).
Proof.
  revert b. induction l as [|c r IH]; intros b; simpl; [auto|].
  destruct (is_space c) eqn:Hc.
  - destruct (IH true) as [Hcol Hstart]. destruct b; [auto|].
    split; [|discriminate]. simpl.
    rewrite (Hstart eq_refl). simpl. exact Hcol.
  - destruct (IH false) as [Hcol _]. simpl. rewrite Hc. simpl.
    split; [exact Hcol|]. reflexivity.
Qed.

Lemma collapsed_app a b :
  collapsed (a ++ b) = true -> collapsed a = true /\ collapsed b = true.
Proof.
  induction a as [|c r IH]; simpl; [auto|]. intros H.
  apply andb_true_iff in H as [Hc Hr]. destruct (IH Hr) as [Ha Hb].
  split; [|exact Hb]. rewrite Ha, andb_true_r.
  destruct (is_space c); [|reflexivity].
  apply andb_true_iff in Hc as [Hblank Hnext]. rewrite Hblank. simpl.
  destruct r as [|d r']; [reflexivity | exact Hnext].
Qed.

Lemma collapsed_strip l p : collapsed l = true -> collapsed (strip p l) = true.
Proof.
  unfold strip, lstrip. intros H.
  destruct (drop_while_suffix p l) as (t & Hl & _).
  rewrite Hl in H. apply collapsed_app in H as [_ H].
  destruct (rstrip_prefix p (drop_while p l)) as (t2 & Hy & _).
  rewrite Hy in H. now apply collapsed_app in H as [H _].
Qed.

Lemma collapse_fixed b l :
  collapsed l = true -> (b = true -> starts_blank l = false) ->
  collapse b l = l.
Proof.
  revert b. induction l as [|c r IH]; intros b; simpl; [reflexivity|].
  intros H Hb. apply andb_true_iff in H as [Hc Hr].
  destruct (is_space c) eqn:Hs.
  - apply andb_true_iff in Hc as [Hblank Hnext].
    apply Ascii.eqb_eq in Hblank. apply negb_true_iff in Hnext.
    destruct b; [now specialize (Hb eq_refl)|].
    subst c. f_equal. apply IH; auto.
  - f_equal. apply IH; [exact Hr | discriminate].
Qed.

(** A query is a fixed point of the steps that follow the removal of
    the extension, unless it holds a digit run at a word boundary. *)
Lemma build_chars_fixed value :
  let q := build_chars value in
  strip_ext q = q -> search_boundary None q = None -> build_chars q = q.
Proof.
  intros q Hext Hdigits.
  assert (Hin : forall c, In c q -> c <> "/"%char /\ c <> "_"%char
                                    /\ c <> "-"%char).
  { intros c H. apply in_build_chars in H as [->|(H & H1 & H2)].
    - repeat split; discriminate.
    - repeat split; auto. intros ->. apply in_strip_ext in H.
      exact (basename_no_slash _ H). }
  assert (Hslash : ~ In "/"%char q) by (intros H; now apply Hin in H).
  assert (Hunder : ~ In "_"%char q) by (intros H; now apply Hin in H).
  assert (Hdash : ~ In "-"%char q) by (intros H; now apply Hin in H).
  assert (Hflanked : search_flanked q = None).
  { apply search_flanked_none. intros H.
    apply (build_chars_not_flanked value).
    apply (has_flanked_app [] _ [" "%char]) in H. exact H. }
  assert (Hcol : collapsed q = true).
  { apply collapsed_strip. apply (collapse_collapsed false). }
  unfold build_chars at 1.
  rewrite (basename_id _ Hslash), Hext, (after_sep_none _ Hunder).
  rewrite (despace_id _ Hunder Hdash).
  unfold cut_at_digits. rewrite Hflanked, Hdigits.
  rewrite (collapse_fixed false q Hcol) by discriminate.
  apply strip_idem.
Qed.

(** C7, as the code has it.  Building a query from a query gives the same
    query, when the query has no extension left to remove and no run of
    eight or more digits at a word boundary. *)
Theorem build_search_query_idempotent (s : string) :
  let q := _build_search_query s in
  strip_ext (to_chars q) = to_chars q ->
  search_boundary None (to_chars q) = None ->
  _build_search_query q = q.
Proof.
  intros q Hext Hdigits. subst q. rewrite query_chars in Hext, Hdigits.
  pose proof (build_chars_fixed (to_chars s) Hext Hdigits) as Hfix.
  unfold _build_search_query at 1.
  destruct (String.eqb (_build_search_query s) "") eqn:He.
  - apply String.eqb_eq in He. now rewrite He.
  - rewrite query_chars, Hfix. rewrite <- query_chars.
    apply string_of_list_ascii_of_string.
Qed.

Lemma build_search_query_idempotent_witness :
  _build_search_query (_build_search_query thicc_filename)
  = _build_search_query thicc_filename.
Proof.
  apply (build_search_query_idempotent thicc_filename); reflexivity.
Defined.

(** C7, as stated, fails: a name with several dots loses one extension at
    each application, and no digit run is involved. *)
Lemma build_search_query_not_idempotent :
  ~ (forall s,
        let q := _build_search_query s in
        search_boundary None (to_chars q) = None ->
        _build_search_query q = q)
  /\ _build_search_query "a.b.c" = "a.b"
  /\ _build_search_query "a.b" = "a".
Proof.
  split; [|split; reflexivity].
  intros H. specialize (H "a.b.c" eq_refl). discriminate.
Qed.

(** * Further properties of the code *)

(** ** Shape of queries, slugs and URL segments *)

Lemma build_chars_clean c value :
  In c (build_chars value) -> c <> "_"%char /\ c <> "-"%char.
Proof.
  intros H. apply in_build_chars in H as [->|(_ & H1 & H2)]; [|auto].
  split; discriminate.
Qed.

(** X1.  A query holds neither ["_"] nor ["-"]; its white space is made of
    single blanks, none of them at either end. *)
Theorem build_search_query_normal (s : string) :
  let q := to_chars (_build_search_query s) in
  ~ In "_"%char q /\ ~ In "-"%char q
  /\ collapsed q = true /\ strip is_space q = q.
Proof.
  cbv zeta. rewrite query_chars. repeat split.
  - intros H. now apply build_chars_clean in H as [H _].
  - intros H. now apply build_chars_clean in H as [_ H].
  - unfold build_chars. apply collapsed_strip, (collapse_collapsed false).
  - unfold build_chars. apply strip_idem.
Qed.

Lemma strip_ends p l :
  starts_with p (strip p l) = false /\ starts_with p (rev (strip p l)) = false.
Proof.
  unfold strip, lstrip. split.
  - destruct (drop_while p l) as [|c r] eqn:Hd; [reflexivity|].
    pose proof (drop_while_head _ _ _ _ Hd) as Hc.
    rewrite (rstrip_cons _ _ _ Hc). exact Hc.
  - unfold rstrip. rewrite rev_involutive.
    destruct (drop_while p (rev (drop_while p l))) as [|c r] eqn:Hd;
      [reflexivity|].
    exact (drop_while_head _ _ _ _ Hd).
Qed.

Lemma no_double_app p a b :
  no_double p (a ++ b) = true -> no_double p a = true /\ no_double p b = true.
Proof.
  induction a as [|c r IH]; simpl; [auto|]. intros H.
  apply andb_true_iff in H as [Hc Hr]. destruct (IH Hr) as [Ha Hb].
  split; [|exact Hb]. rewrite Ha, andb_true_r.
  destruct (p c); [|reflexivity]. simpl in *.
  destruct r as [|d r']; [reflexivity | exact Hc].
Qed.

Lemma no_double_strip p q l :
  no_double p l = true -> no_double p (strip q l) = true.
Proof.
  unfold strip, lstrip. intros H.
  destruct (drop_while_suffix q l) as (t & Hl & _).
  rewrite Hl in H. apply no_double_app in H as [_ H].
  destruct (rstrip_prefix q (drop_while q l)) as (t2 & Hy & _).
  rewrite Hy in H. now apply no_double_app in H as [H _].
Qed.

Lemma dash_runs_shape b l :
  Forall (fun c => is_alnum c = true \/ c = "-"%char) (dash_runs b l)
  /\ no_double (is_char "-") (dash_runs b l) = true
  /\ (b = true -> starts_with (is_char "-") (dash_runs b l) = false).
Proof.
  assert (Hnd : forall c, is_alnum c = true -> is_char "-" c = false).
  { intros c. destruct c as [[] [] [] [] [] [] [] []]; vm_compute;
      solve [reflexivity | discriminate]. }
  revert b. induction l as [|c r IH]; intros b; simpl; [auto|].
  destruct (is_alnum c) eqn:Hc.
  - destruct (IH false) as (Hall & Hno & _). repeat split.
    + constructor; auto.
    + simpl. rewrite (Hnd c Hc). simpl. exact Hno.
    + intros _. simpl. exact (Hnd c Hc).
  - destruct (IH true) as (Hall & Hno & Hstart). destruct b; [auto|].
    repeat split.
    + constructor; auto.
    + simpl. rewrite (Hstart eq_refl). simpl. exact Hno.
    + discriminate.
Qed.

Lemma lower_slug_char c :
  is_alnum c = true \/ c = "-"%char ->
  is_slug_char (lower_char c) = true
  /\ is_char "-" (lower_char c) = is_char "-" c.
Proof.
  intros [H| ->]; [|split; reflexivity]. revert H.
  destruct c as [[] [] [] [] [] [] [] []]; vm_compute;
    solve [split; reflexivity | discriminate].
Qed.

Lemma lower_slug_shape l :
  Forall (fun c => is_alnum c = true \/ c = "-"%char) l ->
  forallb is_slug_char (map lower_char l) = true
  /\ starts_with (is_char "-") (map lower_char l)
     = starts_with (is_char "-") l
  /\ no_double (is_char "-") (map lower_char l)
     = no_double (is_char "-") l.
Proof.
  induction 1 as [|c r Hc Hr (IH1 & IH2 & IH3)]; simpl; [auto|].
  destruct (lower_slug_char c Hc) as [Hs Hd].
  rewrite Hs, IH1, Hd, IH2, IH3. auto.
Qed.

Lemma Forall_strip (P : ascii -> Prop) p l :
  Forall P l -> Forall P (strip p l).
Proof.
  rewrite !Forall_forall. intros H c Hc. apply H. eapply in_strip; eauto.
Qed.

Lemma to_of_chars l : to_chars (of_chars l) = l.
Proof. apply list_ascii_of_string_of_list_ascii. Qed.

(** X2.  A slug is made of lower-case letters, digits and ["-"]; it neither
    starts nor ends with ["-"], and no two ["-"] follow each other.  Every
    string has a slug; a value that is neither a string nor falsy has
    none. *)
Theorem slugify_shape :
  (forall value slug,
      _slugify value = Ok slug ->
      forallb is_slug_char (to_chars slug) = true
      /\ starts_with (is_char "-") (to_chars slug) = false
      /\ starts_with (is_char "-") (rev (to_chars slug)) = false
      /\ no_double (is_char "-") (to_chars slug) = true)
  /\ (forall value,
        (exists slug, _slugify value = Ok slug) <-> textual value = true).
Proof.
  split.
  - intros value slug. unfold _slugify.
    destruct (or_else value (JStr "")) as [| | | |s| |]; try discriminate.
    intros [= <-]. unfold lower. rewrite !to_of_chars.
    set (body := strip (is_char "-") (dash_runs false (to_chars s))).
    destruct (dash_runs_shape false (to_chars s)) as (Hall & Hno & _).
    assert (Hbody : Forall (fun c => is_alnum c = true \/ c = "-"%char) body)
      by now apply Forall_strip.
    destruct (lower_slug_shape body Hbody) as (H1 & H2 & H3).
    destruct (strip_ends (is_char "-") (dash_runs false (to_chars s)))
      as [Hstart Hend].
    repeat split.
    + exact H1.
    + rewrite H2. exact Hstart.
    + rewrite <- map_rev.
      assert (Hrev : Forall (fun c => is_alnum c = true \/ c = "-"%char)
                            (rev body)).
      { rewrite Forall_forall in *. intros c Hc. apply Hbody.
        now apply in_rev. }
      destruct (lower_slug_shape _ Hrev) as (_ & H2' & _).
      rewrite H2'. exact Hend.
    + rewrite H3. now apply no_double_strip.
  - intros value. split.
    + intros [slug H]. unfold _slugify, or_else in H. unfold textual.
      destruct value; try reflexivity;
        (destruct (truthy _); [discriminate | reflexivity]).
    + intros H. destruct (textual_or_else value H) as [s Hs].
      unfold _slugify. rewrite Hs. eauto.
Qed.

(** ** Substrings *)

Lemma is_prefix_spec p s :
  is_prefix p s = true <-> exists post, s = p ++ post.
Proof.
  revert s. induction p as [|a p IH]; intros s; simpl.
  - split; eauto.
  - destruct s as [|b s]; simpl.
    + split; [discriminate | intros [post H]; discriminate].
    + rewrite andb_true_iff, IH. split.
      * intros [Hab [post ->]]. apply Ascii.eqb_eq in Hab. subst. eauto.
      * intros [post [= -> ->]]. split; [apply Ascii.eqb_refl | eauto].
Qed.

Lemma is_infix_spec p s :
  is_infix p s = true <-> exists pre post, s = pre ++ p ++ post.
Proof.
  induction s as [|c s IH]; simpl.
  - rewrite orb_false_r, is_prefix_spec. split.
    + intros [post H]. exists [], post. exact H.
    + intros (pre & post & H). destruct pre; [eauto|discriminate].
  - rewrite orb_true_iff, is_prefix_spec, IH. split.
    + intros [[post H]|(pre & post & ->)].
      * exists [], post. exact H.
      * exists (c :: pre), post. reflexivity.
    + intros (pre & post & H). destruct pre as [|x pre]; simpl in H.
      * left. eauto.
      * right. injection H as _ ->. eauto.
Qed.

Lemma infix_trans (a b c : chars) :
  (exists pre post, b = pre ++ a ++ post) ->
  (exists pre post, c = pre ++ b ++ post) ->
  exists pre post, c = pre ++ a ++ post.
Proof.
  intros (p1 & q1 & ->) (p2 & q2 & ->).
  exists (p2 ++ p1), (q1 ++ q2). now rewrite <- !app_assoc.
Qed.

Lemma basename_suffix l : exists pre, l = pre ++ basename l.
Proof.
  induction l as [|c r [pre IH]]; simpl; [now exists []|].
  destruct (existsb (is_char "/") r).
  - exists (c :: pre). simpl. now rewrite <- IH.
  - destruct (is_char "/" c); [now exists [c] | now exists []].
Qed.




Lemma of_to_chars s : of_chars (to_chars s) = s.
Proof. apply string_of_list_ascii_of_string. Qed.


Lemma length_of_chars l : String.length (of_chars l) = List.length l.
Proof. induction l as [|c l IH]; simpl; [reflexivity | now rewrite IH]. Qed.

(** ** Scene identifier *)

Lemma firstn_take_while p n l :
  (n <= run_length p l)%nat -> forallb p (firstn n l) = true.
Proof.
  unfold run_length. revert n. induction l as [|c r IH]; intros n; simpl.
  - intros H. assert (n = 0%nat) by lia. now subst.
  - destruct n; [reflexivity|]. destruct (p c) eqn:Hc; simpl.
    + intros H. rewrite Hc. apply IH. lia.
    + lia.
Qed.

Lemma run_length_le p l : (run_length p l <= List.length l)%nat.
Proof.
  unfold run_length. induction l as [|c r IH]; simpl; [lia|].
  destruct (p c); simpl; lia.
Qed.

Lemma search_hex24_sound l id :
  search_hex24 l = Some id ->
  List.length id = 24%nat /\ forallb is_hex id = true
  /\ exists pre post, l = pre ++ id ++ post.
Proof.
  induction l as [|c r IH]; [discriminate|]. cbn [search_hex24].
  destruct (Nat.leb 24 (run_length is_hex (c :: r))) eqn:Hrun.
  - intros H. assert (Hid : id = firstn 24 (c :: r)) by congruence.
    clear H. subst id. apply Nat.leb_le in Hrun.
    pose proof (run_length_le is_hex (c :: r)) as Hlen. repeat split.
    + rewrite length_firstn. lia.
    + now apply firstn_take_while.
    + exists [], (skipn 24 (c :: r)).
      symmetry. exact (firstn_skipn 24 (c :: r)).
  - intros H. destruct (IH H) as (Hl & Hh & pre & post & ->).
    repeat split; auto. now exists (c :: pre), post.
Qed.

Lemma search_hex24_complete l :
  search_hex24 l = None ->
  forall pre run post,
    l = pre ++ run ++ post -> forallb is_hex run = true ->
    (List.length run < 24)%nat.
Proof.
  induction l as [|c r IH]; intros Hs pre run post Heq Hrun.
  - destruct pre; [|discriminate]. destruct run; [simpl; lia|discriminate].
  - cbn [search_hex24] in Hs.
    destruct (Nat.leb 24 (run_length is_hex (c :: r))) eqn:Hlen;
      [discriminate|]. apply Nat.leb_gt in Hlen.
    destruct pre as [|x pre]; simpl in Heq.
    + pose proof (run_length_app is_hex run post Hrun) as Hle.
      rewrite <- Heq in Hle. lia.
    + injection Heq as _ Heq. exact (IH Hs pre run post Heq Hrun).
Qed.

(** X3.  An identifier found in a text is made of 24 characters of
    [0-9a-f] and is part of the text; none is found exactly when every run
    of such characters in the text is shorter than 24. *)
Theorem extract_scene_id_spec (s : string) :
  (forall id,
      _extract_scene_id (JStr s) = Ok (Some id) ->
      String.length id = 24%nat /\ forallb is_hex (to_chars id) = true
      /\ exists pre post, to_chars s = pre ++ to_chars id ++ post)
  /\ (_extract_scene_id (JStr s) = Ok None <->
      forall pre run post,
        to_chars s = pre ++ run ++ post -> forallb is_hex run = true ->
        (List.length run < 24)%nat).
Proof.
  unfold _extract_scene_id. rewrite or_else_text. split.
  - intros id H. injection H as H.
    destruct (search_hex24 (to_chars s)) as [chars_id|] eqn:Hs;
      [|discriminate].
    injection H as <-. rewrite to_of_chars, length_of_chars.
    now apply search_hex24_sound.
  - split.
    + intros H. injection H as H.
      destruct (search_hex24 (to_chars s)) eqn:Hs; [discriminate|].
      now apply search_hex24_complete.
    + intros H. destruct (search_hex24 (to_chars s)) as [id|] eqn:Hs;
        [|reflexivity].
      apply search_hex24_sound in Hs as (Hl & Hh & pre & post & Heq).
      specialize (H pre id post Heq Hh). lia.
Qed.

(** ** URL segment *)

Lemma in_take_while p c l : In c (take_while p l) -> In c l /\ p c = true.
Proof.
  induction l as [|x r IH]; simpl; [intros []|].
  destruct (p x) eqn:Hx; [|intros []].
  intros [<-|H]; [auto|]. destruct (IH H). auto.
Qed.

Lemma split_on_no_sep sep l :
  Forall (fun w => ~ In sep w) (split_on sep l).
Proof.
  induction l as [|c r IH]; simpl.
  - constructor; auto.
  - destruct (is_char sep c) eqn:Hc; [constructor; auto|].
    apply is_char_neq in Hc.
    destruct (split_on sep r) as [|w ws]; constructor.
    + intros [H|[]]. congruence.
    + constructor.
    + inversion IH; subst. intros [H|H]; [congruence | auto].
    + now inversion IH.
Qed.

Lemma last_Forall {A} (P : A -> Prop) l d : Forall P l -> P d -> P (last l d).
Proof.
  induction 1 as [|x r Hx Hr IH]; simpl; [auto|].
  intros Hd. destruct r; auto.
Qed.

(** X4.  The segment of a URL that becomes the search text holds neither
    ["/"] nor ["?"]. *)
Theorem url_slug_clean (url : string) :
  ~ In "/"%char (to_chars (url_slug url))
  /\ ~ In "?"%char (to_chars (url_slug url)).
Proof.
  unfold url_slug. rewrite to_of_chars. unfold before_question. split.
  - intros H. apply in_take_while in H as [H _]. revert H.
    apply (last_Forall (fun w => ~ In "/"%char w)); [|auto].
    apply split_on_no_sep.
  - intros H. apply in_take_while in H as [_ H]. discriminate.
Qed.

(** ** Tokens of a file name *)






Lemma contains_part (part whole : chars) (s : string) :
  (exists pre post, whole = pre ++ part ++ post) ->
  (exists pre post, to_chars s = pre ++ whole ++ post) ->
  contains (of_chars part) s = true.
Proof.
  intros H1 H2. unfold contains. rewrite to_of_chars.
  apply is_infix_spec. eapply infix_trans; eauto.
Qed.


(** ** Storage key *)

Lemma key_here_spec l k :
  key_here l = Some k -> In "."%char k /\ exists post, l = k ++ post.
Proof.
  unfold key_here. cbv zeta.
  pose proof (take_drop_while is_keychar l) as Hl.
  pose proof (skipn_take_while is_keychar l) as Hs.
  destruct (take_while is_keychar l) as [|a stem]; [discriminate|].
  rewrite Hs in *.
  destruct (drop_while is_keychar l) as [|u r]; [discriminate|].
  destruct u as [[] [] [] [] [] [] [] []]; try discriminate.
  pose proof (take_drop_while is_alnum r) as Hr.
  pose proof (skipn_take_while is_alnum r) as Hs2.
  destruct (take_while is_alnum r) as [|e ext]; [discriminate|].
  rewrite Hs2 in *.
  destruct (drop_while is_alnum r) as [|nl [|x y]]; try discriminate.
  - intros [= <-]. split; [right; apply in_elt|].
    exists []. rewrite app_nil_r, <- Hl. f_equal. f_equal.
    rewrite <- Hr. now rewrite app_nil_r.
  - destruct (N.eqb (code nl) 10); [|discriminate].
    intros [= <-]. split; [right; apply in_elt|].
    exists [nl]. rewrite <- Hl, <- Hr. simpl. f_equal.
    rewrite <- app_assoc. reflexivity.
Qed.

Lemma search_key_spec l k :
  search_key l = Some k ->
  In "."%char k /\ exists pre post, l = pre ++ k ++ post.
Proof.
  induction l as [|c r IH]; [discriminate|]. cbn [search_key].
  destruct (key_here (c :: r)) as [k'|] eqn:Hk.
  - intros [= ->]. apply key_here_spec in Hk as [H [post Hp]].
    split; [exact H|]. now exists [], post.
  - intros H. destruct (IH H) as (Hd & pre & post & ->).
    split; [exact Hd|]. now exists (c :: pre), post.
Qed.

Lemma in_infix (c : ascii) (part whole : chars) :
  (exists pre post, whole = pre ++ part ++ post) -> In c part -> In c whole.
Proof.
  intros (pre & post & ->) H. apply in_or_app. right. apply in_or_app. now left.
Qed.

Lemma name_infix l :
  exists pre post, l = pre ++ basename (before_question l) ++ post.
Proof.
  destruct (basename_suffix (before_question l)) as [pre H].
  exists pre, (drop_while (fun c => negb (is_char "?" c)) l).
  rewrite app_assoc, <- H. symmetry. apply take_drop_while.
Qed.

Lemma name_clean l :
  ~ In "/"%char (basename (before_question l))
  /\ ~ In "?"%char (basename (before_question l)).
Proof.
  split; [apply basename_no_slash|].
  intros H. destruct (basename_suffix (before_question l)) as [pre Hp].
  assert (Hq : In "?"%char (before_question l))
    by (rewrite Hp; apply in_or_app; now right).
  apply in_take_while in Hq as [_ Hq]. discriminate.
Qed.

(** X6.  A storage key taken from a text holds a ["."] and neither ["/"]
    nor ["?"], and it occurs in the text.  No key is found exactly when
    the part of the text before the first ["?"] and after its last ["/"]
    has no ["."]. *)
Theorem extract_storage_key_spec (s : string) :
  (forall key,
      _extract_storage_key (JStr s) = Ok (Some key) ->
      In "."%char (to_chars key)
      /\ ~ In "/"%char (to_chars key) /\ ~ In "?"%char (to_chars key)
      /\ contains key s = true)
  /\ (_extract_storage_key (JStr s) = Ok None
      <-> ~ In "."%char (basename (before_question (to_chars s)))).
Proof.
  unfold _extract_storage_key. cbn [truthy].
  destruct (String.eqb s "") eqn:Hs; cbn [negb].
  - apply String.eqb_eq in Hs. subst s. split; [discriminate|].
    split; [intros _ [] | reflexivity].
  - pose proof (name_infix (to_chars s)) as Hin.
    destruct (name_clean (to_chars s)) as [Hslash Hq].
    set (name := basename (before_question (to_chars s))) in *.
    destruct (search_key name) as [k|] eqn:Hk.
    + apply search_key_spec in Hk as [Hdot Hpart]. split.
      * intros key [= <-]. rewrite to_of_chars. repeat split.
        -- exact Hdot.
        -- intros H. apply Hslash. now apply (in_infix _ k).
        -- intros H. apply Hq. now apply (in_infix _ k).
        -- now apply (contains_part _ name).
      * split; [discriminate|]. intros H. exfalso. apply H.
        now apply (in_infix _ k).
    + destruct (existsb (is_char ".") name) eqn:He.
      * apply existsb_exists in He as (c & Hc & Hcc).
        apply is_char_eq in Hcc. subst c. split.
        -- intros key [= <-]. rewrite to_of_chars. repeat split; auto.
           apply (contains_part _ name); [|exact Hin].
           exists [], []. now rewrite app_nil_r.
        -- split; [discriminate | intros H; now destruct H].
      * split; [discriminate|]. split; [|reflexivity].
        intros _ H.
        assert (existsb (is_char ".") name = true); [|congruence].
        apply existsb_exists. exists "."%char. split; [exact H|].
        now apply is_char_eq.
Qed.

(** ** Dropping the first word of a query *)

Lemma words_runs l : Forall is_word_run (words l).
Proof.
  induction l as [|c r IH]; simpl; [constructor|].
  destruct (is_space c) eqn:Hc; [exact IH|].
  destruct (starts_blank r).
  - constructor; [|exact IH]. split; [discriminate|]. simpl. now rewrite Hc.
  - destruct (words r) as [|w ws].
    + constructor; [|constructor]. split; [discriminate|]. simpl.
      now rewrite Hc.
    + inversion IH as [|? ? [_ Hw] Hws]; subst. constructor; [|exact Hws].
      split; [discriminate|]. simpl. now rewrite Hc, Hw.
Qed.

Lemma words_single w : is_word_run w -> words w = [w].
Proof.
  intros [Hne Hw]. induction w as [|x w IH]; [congruence|].
  simpl in Hw. apply andb_true_iff in Hw as [Hx Hw].
  apply negb_true_iff in Hx. simpl. rewrite Hx.
  destruct w as [|y w]; [reflexivity|].
  assert (Hy : is_space y = false).
  { simpl in Hw. apply andb_true_iff in Hw as [Hy _].
    now apply negb_true_iff in Hy. }
  cbn [starts_blank]. rewrite Hy.
  rewrite IH; [reflexivity | discriminate | exact Hw].
Qed.

Lemma words_app_blank w c rest :
  is_word_run w -> is_space c = true ->
  words (w ++ c :: rest) = w :: words rest.
Proof.
  intros [Hne Hw] Hc. induction w as [|x w IH]; [congruence|].
  simpl in Hw. apply andb_true_iff in Hw as [Hx Hw].
  apply negb_true_iff in Hx. cbn [app words]. rewrite Hx.
  destruct w as [|y w].
  - cbn [app starts_blank]. rewrite Hc. cbn [words]. now rewrite Hc.
  - assert (Hy : is_space y = false).
    { simpl in Hw. apply andb_true_iff in Hw as [Hy _].
      now apply negb_true_iff in Hy. }
    cbn [app starts_blank]. rewrite Hy.
    change (y :: w ++ c :: rest) with ((y :: w) ++ c :: rest).
    rewrite IH; [reflexivity | discriminate | exact Hw].
Qed.

Lemma to_chars_app a b : to_chars (a ++ b) = to_chars a ++ to_chars b.
Proof.
  induction a as [|c a IH]; simpl; [reflexivity | now rewrite IH].
Qed.

Lemma words_join ws :
  Forall is_word_run ws ->
  words (to_chars (join " " (map of_chars ws))) = ws.
Proof.
  induction 1 as [|w ws Hw Hws IH]; [reflexivity|].
  destruct ws as [|w' ws].
  - cbn [map join]. rewrite to_of_chars. now apply words_single.
  - change (join " " (map of_chars (w :: w' :: ws)))
      with ((of_chars w ++ " " ++ join " " (map of_chars (w' :: ws)))%string).
    rewrite !to_chars_app, to_of_chars.
    change (to_chars " ") with [" "%char]. cbn [app].
    rewrite words_app_blank; [now rewrite IH | exact Hw | reflexivity].
Qed.

Lemma filter_nonempty ws :
  Forall is_word_run ws ->
  filter (fun word => negb (String.eqb word "")) (map of_chars ws)
  = map of_chars ws.
Proof.
  induction 1 as [|w ws [Hw _] Hws IH]; [reflexivity|].
  cbn [map filter]. rewrite IH.
  destruct w; [congruence | reflexivity].
Qed.

(** X7.  Trimming a query drops its first word and nothing else: the
    words of the result are the words of the query without the first
    one, so a query of at most one word gives the empty string. *)
Theorem trim_query_words (query : string) :
  words (to_chars (_trim_query query)) = tl (words (to_chars query)).
Proof.
  unfold _trim_query. cbv zeta.
  pose proof (words_runs (to_chars query)) as Hruns.
  rewrite (filter_nonempty _ Hruns).
  destruct (words (to_chars query)) as [|w [|w' ws]]; try reflexivity.
  cbn [map List.length Nat.leb tl].
  inversion Hruns as [|? ? _ Hrest]; subst.
  exact (words_join (w' :: ws) Hrest).
Qed.

(** ** Nested lookup *)

Lemma dig_null keys : dig JNull keys = JNull.
Proof. destruct keys; reflexivity. Qed.

(** X8.  Digging along one path and then along a second one from what
    was found is digging along the two paths put end to end; a key that
    is missing on the way gives [None] for the whole path. *)
Theorem dig_app (data : json) (keys more : list string) :
  dig (dig data keys) more = dig data (keys ++ more).
Proof.
  revert data. induction keys as [|key rest IH]; intros data; [reflexivity|].
  cbn [app dig].
  destruct data; try apply dig_null.
  destruct (lookup key d); [apply IH | apply dig_null].
Qed.

(** ** Strings of a document *)

Lemma iter_strings_complete v s : string_in v s -> In s (_iter_strings v).
Proof.
  induction 1 as [s | l v s Hv _ IH | d k v s Hv _ IH].
  - now left.
  - cbn [_iter_strings]. induction l as [|x r IHr]; [destruct Hv|].
    apply in_or_app. destruct Hv as [->|Hv]; [now left | right; auto].
  - cbn [_iter_strings]. induction d as [|[k' x] r IHr]; [destruct Hv|].
    apply in_or_app. destruct Hv as [[= -> ->]|Hv]; [now left | right; auto].
Qed.

Lemma iter_strings_sound : forall v s, In s (_iter_strings v) -> string_in v s.
Proof.
  fix IH 1. intros v s. destruct v as [| | | |t|l|d]; cbn [_iter_strings];
    try (intros []; fail).
  - intros [<-|[]]. constructor.
  - induction l as [|x r IHr]; [intros []|].
    intros H. apply in_app_or in H as [H|H].
    + apply (string_in_list (x :: r) x); [now left | now apply IH].
    + specialize (IHr H). inversion IHr; subst.
      eapply string_in_list; [right; eassumption | assumption].
  - induction d as [|[k x] r IHr]; [intros []|].
    intros H. apply in_app_or in H as [H|H].
    + apply (string_in_dict ((k, x) :: r) k x); [now left | now apply IH].
    + specialize (IHr H). inversion IHr; subst.
      eapply string_in_dict; [right; eassumption | assumption].
Qed.

(** X9.  A record contains a token exactly when one of the strings held
    in it, as the record itself, an item of a list or a value of a
    mapping at any depth, has one of the tokens as a substring.  Keys of
    mappings do not count, and without tokens nothing is contained. *)
Theorem video_contains_token_spec (video : json) (tokens : list string) :
  _video_contains_token video tokens = true
  <-> exists value token,
      string_in video value /\ In token tokens
      /\ contains token value = true.
Proof.
  unfold _video_contains_token. destruct tokens as [|t ts].
  - split; [discriminate | intros (_ & _ & _ & [] & _)].
  - rewrite existsb_exists. split.
    + intros (value & Hv & Ht). apply existsb_exists in Ht as (token & Ht & Hc).
      exists value, token. split; [now apply iter_strings_sound | auto].
    + intros (value & token & Hv & Ht & Hc). exists value.
      split; [now apply iter_strings_complete|].
      apply existsb_exists. eauto.
Qed.

(** ** Names *)

Lemma strip_ws_chars l : strip_ws (of_chars l) = of_chars (strip is_space l).
Proof. unfold strip_ws. now rewrite to_of_chars. Qed.

Lemma in_keep_name n v : In n (keep_name v) -> v = JStr n /\ nonblank n = true.
Proof.
  destruct v; try (intros []). simpl.
  destruct (nonblank s) eqn:Hs; [|intros []].
  intros [<-|[]]. auto.
Qed.

(** X10.  No name kept by the normalizer is blank; a name taken from a
    comma-separated string has no white space at either end and no
    comma.  Values that are neither a list nor a string give no name. *)
Theorem normalize_names_spec :
  (forall value,
      Forall (fun name => nonblank name = true) (_normalize_names value))
  /\ (forall s,
      Forall (fun name => strip_ws name = name
                          /\ ~ In ","%char (to_chars name))
             (_normalize_names (JStr s)))
  /\ (forall value,
      match value with
      | JList _ | JStr _ => True
      | _ => _normalize_names value = []
      end).
Proof.
  split; [|split].
  - intros value. apply Forall_forall. intros n Hn.
    destruct value; try (destruct Hn; fail); cbn [_normalize_names] in Hn;
      apply in_flat_map in Hn as (x & _ & Hx);
      now apply in_keep_name in Hx.
  - intros s. apply Forall_forall. intros n Hn.
    cbn [_normalize_names] in Hn. apply in_flat_map in Hn as (item & Hi & Hx).
    apply in_keep_name in Hx as [[= <-] _].
    rewrite !strip_ws_chars, to_of_chars. split.
    + now rewrite strip_idem.
    + intros H. apply in_strip in H.
      pose proof (split_on_no_sep "," (to_chars s)) as Hall.
      rewrite Forall_forall in Hall. exact (Hall item Hi H).
  - intros value. destruct value; (exact I || reflexivity).
Qed.

(** ** Filtering candidates by duration *)

Section Filter.

Variable P : Platform.




End Filter.

(** ** Requests of a resolution *)

Section Requests.

Variable P : Platform.
Variable server : list request -> request -> response.

Lemma fetches_ret {A} (a : A) : fetches 0 (ret a).
Proof. intros w. exists []. simpl. now rewrite app_nil_r. Qed.

Lemma fetches_lift {A} (r : res A) : fetches 0 (lift r).
Proof. intros w. exists []. destruct r; simpl; now rewrite app_nil_r. Qed.

Lemma fetches_fail {A} msg : fetches 0 (@fail A msg).
Proof. intros w. exists []. simpl. now rewrite app_nil_r. Qed.

Lemma fetches_weaken {A} n n' (m : M A) :
  (n <= n')%nat -> fetches n m -> fetches n' m.
Proof.
  intros Hle H w. destruct (H w) as (new & H1 & H2 & H3).
  exists new. repeat split; auto. lia.
Qed.

Lemma fetches_bind {A B} n k (m : M A) (f : A -> M B) :
  fetches n m -> (forall a, fetches k (f a)) -> fetches (n + k) (bind m f).
Proof.
  intros Hm Hf w. unfold bind. destruct (Hm w) as (new & H1 & H2 & H3).
  destruct (m w) as [[a|code|e] w1]; simpl in *.
  - destruct (Hf a w1) as (new' & H1' & H2' & H3').
    exists (new ++ new'). rewrite H1', H1, <- app_assoc, length_app, forallb_app.
    repeat split; [lia | now rewrite H3, H3'].
  - exists new. repeat split; auto. lia.
  - exists new. repeat split; auto. lia.
Qed.

Lemma fetches_get_json req context :
  is_watch req = true -> fetches 1 (_get_json server req context).
Proof.
  intros Hreq w. exists [req]. unfold _get_json.
  destruct (server (history w) req); simpl; now rewrite Hreq.
Qed.

Lemma fetches_get_video_details video_id :
  fetches 1 (_get_video_details P server video_id).
Proof.
  unfold _get_video_details.
  apply (fetches_bind 1 0); [now apply fetches_get_json|]. intros data.
  apply (fetches_bind 0 0); [apply fetches_lift|]. intros [|].
  - apply fetches_ret.
  - destruct (dig data _); (apply fetches_ret || apply fetches_fail).
Qed.

Lemma fetches_fetch_candidate_details candidate :
  fetches 1 (_fetch_candidate_details P server candidate).
Proof.
  unfold _fetch_candidate_details.
  apply (fetches_bind 0 1); [apply fetches_lift|]. intros video_id.
  destruct (negb (truthy video_id));
    [apply (fetches_weaken 0); [lia | apply fetches_ret]|].
  apply (fetches_bind 1 0); [apply fetches_get_video_details|]. intros details.
  apply (fetches_bind 0 0); [apply fetches_lift|].
  intros [|]; apply fetches_ret.
Qed.

Lemma fetches_fetch_one c : fetches 1 (fetch_one P server c).
Proof.
  intros w. destruct (fetches_fetch_candidate_details c w) as (new & H).
  exists new. unfold fetch_one.
  destruct (_fetch_candidate_details P server c w) as [[[[| | | | | |d]|]|code|e] w1];
    try exact H.
  destruct (_get_video_id c); exact H.
Qed.

Lemma fetches_fetch_loop candidates :
  fetches (List.length candidates) (fetch_loop P server candidates).
Proof.
  induction candidates as [|c rest IH]; cbn [fetch_loop List.length].
  - apply fetches_ret.
  - apply (fetches_bind 1 (List.length rest)); [apply fetches_fetch_one|].
    intros found. replace (List.length rest) with (List.length rest + 0)%nat by lia.
    apply fetches_bind; [exact IH|]. intros others. apply fetches_ret.
Qed.

Lemma prefilter_length candidates tokens :
  (List.length (prefilter candidates tokens) <= List.length candidates)%nat.
Proof.
  unfold prefilter. destruct (_ && _); [|lia].
  pose proof (filter_length_le (fun c => _video_contains_token c tokens)
                               candidates).
  destruct (filter _ candidates); [lia | assumption].
Qed.

Lemma fetches_handle_search_results candidates tokens ds :
  fetches (List.length (firstn 5 (prefilter candidates tokens)))
          (_handle_search_results P server candidates tokens ds).
Proof.
  unfold _handle_search_results. cbv zeta.
  set (n := List.length (firstn 5 (prefilter candidates tokens))).
  replace n with (n + 0)%nat by lia.
  apply fetches_bind; [apply fetches_fetch_loop|]. intros [|r rs].
  - apply fetches_fail.
  - apply (fetches_bind 0 0); [apply fetches_lift|]. intros scored_candidates.
    apply fetches_lift.
Qed.

(** X12.  One resolution of search results asks the catalog for at most
    five watch pages, never for more than there are candidates, and
    sends no other request. *)
Theorem handle_search_results_requests
    (candidates : list json) (tokens : list string) (ds : list Q) (w : world) :
  exists new,
    history (snd (_handle_search_results P server candidates tokens ds w))
    = history w ++ new
    /\ (List.length new <= 5)%nat
    /\ (List.length new <= List.length candidates)%nat
    /\ forallb is_watch new = true.
Proof.
  destruct (fetches_handle_search_results candidates tokens ds w)
    as (new & H1 & H2 & H3).
  exists new.
  pose proof (length_firstn_le 5 (prefilter candidates tokens)).
  pose proof (prefilter_length candidates tokens).
  rewrite length_firstn in H2.
  repeat split; auto; lia.
Qed.

End Requests.

(** ** Lookup by identifier *)

Section Lookups.

Variable P : Platform.
Variable server : list request -> request -> response.










(** X16.  A watch page that is a document without ["error"] and without
    a mapping at [data.video] ends the whole resolution: the process
    exits with status 1 after printing the error object, and the
    candidates after this one are not asked for, although the request is
    made inside the loop that skips candidates on exceptions. *)
Theorem handle_search_results_abort
    (c : json) (rest : list json) (tokens : list string) (ds : list Q)
    (w : world) (video_id data : json) (status : Z) :
  (List.length (c :: rest) <= 10)%nat ->
  _get_video_id c = Ok video_id ->
  truthy video_id = true ->
  server (history w) (WatchPage (fmt P video_id)) = Http status (Some data) ->
  str_in "error" data = Ok false ->
  is_dict (dig data ["data"; "video"]) = false ->
  _handle_search_results P server (c :: rest) tokens ds w
  = (Exit 1,
     {| history := history w ++ [WatchPage (fmt P video_id)];
        stdout := stdout w ++
          [error_object ("Video data not found in watch-page response: "
                         ++ fmt P data)] |}).
Proof.
  intros Hlen Hid Htruthy Hserver Herror Hvideo.
  unfold _handle_search_results, prefilter. cbv zeta.
  assert (Hfew : Nat.ltb 10 (List.length (c :: rest)) = false)
    by (apply Nat.ltb_ge; exact Hlen).
  rewrite Hfew. cbn [andb firstn fetch_loop].
  assert (Hone : fetch_one P server c w
                 = (Exit 1,
                    {| history := history w ++ [WatchPage (fmt P video_id)];
                       stdout := stdout w ++
                         [error_object
                            ("Video data not found in watch-page response: "
                             ++ fmt P data)] |})).
  { unfold fetch_one, _fetch_candidate_details, _get_video_details,
      get_watch_page, _get_json, bind.
    rewrite Hid. cbn [lift]. rewrite Htruthy. cbn [negb].
    rewrite Hserver. cbn [_json_from_response]. rewrite Herror. cbn [lift].
    destruct (dig data ["data"; "video"]); try discriminate; reflexivity. }
  unfold bind at 1. unfold bind at 1. rewrite Hone. reflexivity.
Qed.

End Lookups.

(** ** Optional keys of a scene, entries of a selection *)

Section Builders.

Variable P : Platform.

(** X17.  A scene has the key ["details"] exactly when the record has a
    description that is not falsy, and then it holds the description; it
    has the key ["studio"] exactly when the record names a creator or has
    a creator URL; its URL starts with the address of the video pages. *)
Theorem build_scene_optional (video : dict) (scene : dict) :
  _build_scene P (JDict video) = Ok (JDict scene) ->
  lookup "details" scene
  = (if truthy (get "description" video)
     then Some (get "description" video) else None)
  /\ (has_key "studio" scene = false
      <-> truthy (creator_name video) = false
          /\ _extract_studio_url video = None)
  /\ exists rest, lookup "url" scene = Some (JStr (video_url ++ rest)).
Proof.
  unfold _build_scene, creator_name. cbv zeta.
  destruct (_slugify _) as [slug|]; cbn [res_bind]; [|discriminate].
  destruct (_pick_image video) as [image|]; cbn [res_bind]; [|discriminate].
  destruct (date_part _) as [date|]; cbn [res_bind]; [|discriminate].
  intros H. injection H as <-.
  destruct (or_else (get "creator" video) (JList [])); cbv beta iota;
    repeat match goal with
           | |- context [truthy ?x] => destruct (truthy x)
           end;
    destruct (_extract_studio_url video);
    (split; [reflexivity|]);
    (split; [split; [try discriminate; auto | intros [? ?]; try discriminate;
                                               reflexivity]|]);
    cbn [negb andb]; try destruct (negb _); eexists; reflexivity.
Qed.

Lemma selection_option_shape item option :
  selection_option P item = Ok option -> is_option option.
Proof.
  unfold selection_option.
  destruct (_get_video_id (JDict item)) as [video_id|]; cbn [res_bind];
    [|discriminate].
  destruct (_slugify _) as [slug|]; cbn [res_bind]; [|discriminate].
  destruct (_pick_image item) as [thumb|]; cbn [res_bind]; [|discriminate].
  intros [= <-]. unfold is_option. eauto.
Qed.

(** X18.  A selection object that is returned is [{"results": options}]
    with one entry per candidate that is a mapping, in the order of the
    candidates, each entry having the keys title, id, url and thumbnail;
    candidates that are no mapping are left out. *)
Theorem build_selection_options_entries (candidates : list json) (result : json) :
  _build_selection_options P candidates = Ok result ->
  exists options,
    result = JDict [("results", JList options)]
    /\ List.length options = List.length (filter is_dict candidates)
    /\ Forall is_option options.
Proof.
  unfold _build_selection_options.
  destruct (selection_options P candidates) as [options|] eqn:H;
    cbn [res_bind]; [|discriminate].
  intros [= <-]. exists options. split; [reflexivity|].
  revert options H. induction candidates as [|c r IH]; intros options.
  - intros [= <-]. split; [reflexivity | constructor].
  - cbn [selection_options filter].
    destruct c; try (exact (IH options)).
    destruct (selection_option P d) as [o|] eqn:Ho; cbn [res_bind];
      [|discriminate].
    destruct (selection_options P r) as [os|]; cbn [res_bind];
      [|discriminate].
    intros [= <-]. destruct (IH os eq_refl) as [Hlen Hall].
    cbn [is_dict List.length]. split; [now rewrite Hlen|].
    constructor; [now apply (selection_option_shape d) | exact Hall].
Qed.

End Builders.

(** ** Requests of one invocation *)

Section Budget.

Variable P : Platform.
Variable server : list request -> request -> response.

Lemma asks_fetches {A} n (m : M A) : fetches n m -> asks 0 n m.
Proof.
  intros H w. destruct (H w) as (new & H1 & H2 & H3).
  exists [], new. repeat split; auto.
Qed.

Lemma asks_weaken {A} s n s' n' (m : M A) :
  (s <= s')%nat -> (n <= n')%nat -> asks s n m -> asks s' n' m.
Proof.
  intros Hs Hn H w. destruct (H w) as (se & wa & H1 & H2 & H3 & H4 & H5).
  exists se, wa. repeat split; auto; lia.
Qed.

Lemma asks_bind {A B} s1 n1 s2 n2 (m : M A) (k : A -> M B) :
  asks s1 n1 m -> (forall a, asks s2 n2 (k a)) ->
  n1 = 0%nat \/ s2 = 0%nat ->
  asks (s1 + s2) (n1 + n2) (bind m k).
Proof.
  intros Hm Hk Hzero w. unfold bind.
  destruct (Hm w) as (se & wa & H1 & H2 & H3 & H4 & H5).
  destruct (m w) as [[a|code|e] w1]; cbn [snd] in *;
    try (exists se, wa; repeat split; auto; lia).
  destruct (Hk a w1) as (se' & wa' & H1' & H2' & H3' & H4' & H5').
  rewrite H1', H1. destruct Hzero as [-> | ->].
  - assert (wa = []) by (destruct wa; [reflexivity | simpl in H3; lia]).
    subst wa. exists (se ++ se'), wa'.
    rewrite length_app, forallb_app, H4, H4', app_nil_r, <- !app_assoc.
    repeat split; auto; lia.
  - assert (se' = []) by (destruct se'; [reflexivity | simpl in H2'; lia]).
    subst se'. exists se, (wa ++ wa').
    rewrite length_app, forallb_app, H5, H5'. cbn [app].
    rewrite <- !app_assoc. repeat split; auto; lia.
Qed.

Lemma asks_ret {A} (a : A) : asks 0 0 (ret a).
Proof. apply asks_fetches, fetches_ret. Qed.

Lemma asks_lift {A} (r : res A) : asks 0 0 (lift r).
Proof. apply asks_fetches, fetches_lift. Qed.

Lemma asks_fail {A} msg : asks 0 0 (@fail A msg).
Proof. apply asks_fetches, fetches_fail. Qed.

(** Pure steps before a computation do not count *)
Lemma asks_after {A B} s n (r : res A) (k : A -> M B) :
  (forall a, asks s n (k a)) -> asks s n (bind (lift r) k).
Proof.
  intros Hk. apply (asks_bind 0 0 s n); [apply asks_lift | exact Hk | auto].
Qed.

Lemma asks_search_videos query : asks 1 0 (search_videos server query).
Proof.
  intros w. exists [SearchVideos 32 1 query], [].
  unfold search_videos, _get_json.
  destruct (server (history w) _); simpl; repeat split; auto.
Qed.

Lemma asks_get_video_by_id video_id :
  asks 0 1 (_get_video_by_id P server video_id).
Proof.
  unfold _get_video_by_id.
  apply (asks_bind 0 1 0 0);
    [apply asks_fetches, fetches_get_video_details| |auto].
  intros video. apply asks_after. intros [|]; [apply asks_ret | apply asks_lift].
Qed.

Lemma asks_retry_loop attempts query tokens ds :
  asks attempts 5 (retry_loop P server attempts query tokens ds).
Proof.
  induction attempts as [|n IH]; cbn [retry_loop].
  - apply (asks_weaken 0 0); [lia | lia | apply asks_fail].
  - apply (asks_bind 1 0 n 5); [apply asks_search_videos | | auto].
    intros data. apply asks_after. intros [|].
    + apply (asks_weaken 0 0); [lia | lia | apply asks_ret].
    + apply asks_after. intros [|c rest]; [exact IH|].
      apply (asks_weaken 0 (List.length (firstn 5 (prefilter (c :: rest) tokens))));
        [lia | apply length_firstn_le|].
      apply asks_fetches, fetches_handle_search_results.
Qed.

Lemma asks_sceneByFragment params : asks 3 5 (sceneByFragment P server params).
Proof.
  unfold sceneByFragment. cbv zeta. apply asks_after. intros from_filename.
  apply (asks_bind 0 0 3 5); [| |auto].
  - destruct from_filename; [apply asks_ret | apply asks_lift].
  - intros [id|].
    + apply (asks_weaken 0 1); [lia | lia | apply asks_get_video_by_id].
    + apply asks_after. intros key_of_filename.
      apply (asks_bind 0 0 3 5); [| |auto].
      * destruct key_of_filename; [apply asks_ret | apply asks_lift].
      * intros storage_key. apply asks_after. intros query.
        destruct (String.eqb query "").
        -- apply (asks_weaken 0 0); [lia | lia | apply asks_fail].
        -- apply asks_retry_loop.
Qed.

Lemma asks_sceneByURL params : asks 3 5 (sceneByURL P server params).
Proof.
  unfold sceneByURL. cbv zeta. apply asks_after. intros [id|].
  - apply (asks_weaken 0 1); [lia | lia | apply asks_get_video_by_id].
  - destruct (negb _).
    + apply asks_retry_loop.
    + apply (asks_weaken 0 0); [lia | lia | apply asks_fail].
Qed.

(** X19.  One invocation of the scraper, whatever its arguments and its
    input, sends at most three search requests followed by at most five
    requests for watch pages, and no other request. *)
Theorem dispatch_requests
    (args : list string) (input : stdin_input) (w : world) :
  exists searches watches,
    history (snd (dispatch P server args input w))
    = history w ++ searches ++ watches
    /\ (List.length searches <= 3)%nat /\ (List.length watches <= 5)%nat
    /\ forallb is_search searches = true
    /\ forallb is_watch watches = true.
Proof.
  revert w. change (asks 3 5 (dispatch P server args input)).
  unfold dispatch. destruct args as [|calledFunction rest];
    [apply (asks_weaken 0 0); [lia | lia | apply asks_fail]|].
  destruct input as [|msg|params];
    try (apply (asks_weaken 0 0); [lia | lia | apply asks_fail]).
  apply (asks_bind 3 5 0 0); [| |auto].
  - destruct (String.eqb calledFunction "sceneByURL");
      [apply asks_sceneByURL|].
    destruct (String.eqb calledFunction "sceneByFragment");
      [apply asks_sceneByFragment|].
    apply (asks_weaken 0 0); [lia | lia | apply asks_fail].
  - intros result w. exists [], []. simpl. rewrite app_nil_r.
    repeat split; auto.
Qed.

(** X20.  A candidate whose watch page is no JSON document, or is a
    document with the key ["error"], is skipped: its details are [None],
    one request has been sent and nothing is printed.  A request that
    fails in transport ends the process with status 1 after the error
    object has been printed. *)
Theorem fetch_candidate_details_failures
    (candidate video_id : json) (w : world) :
  _get_video_id candidate = Ok video_id ->
  truthy video_id = true ->
  let req := WatchPage (fmt P video_id) in
  let sent := {| history := history w ++ [req]; stdout := stdout w |} in
  (forall status,
      server (history w) req = Http status None ->
      _fetch_candidate_details P server candidate w = (Ret None, sent))
  /\ (forall status data,
      server (history w) req = Http status (Some data) ->
      str_in "error" data = Ok true ->
      _fetch_candidate_details P server candidate w = (Ret None, sent))
  /\ (forall msg,
      server (history w) req = TransportError msg ->
      _fetch_candidate_details P server candidate w
      = (Exit 1,
         {| history := history w ++ [req];
            stdout := stdout w ++
              [error_object ("get_watch_page: request failed: " ++ msg)] |})).
Proof.
  intros Hid Htruthy. cbv zeta.
  unfold _fetch_candidate_details, _get_video_details, get_watch_page,
    _get_json, bind.
  rewrite Hid. cbn [lift]. rewrite Htruthy. cbn [negb].
  split; [|split].
  - intros status ->. reflexivity.
  - intros status data -> Herror. cbn [_json_from_response].
    rewrite Herror. cbn [lift ret]. rewrite Herror. reflexivity.
  - intros msg ->. reflexivity.
Qed.

End Budget.

(** ** The properties on sample inputs *)

Lemma slugify_shape_witness :
  _slugify (JStr "Thicc 5!") = Ok "thicc-5"
  /\ (forallb is_slug_char (to_chars "thicc-5") = true
      /\ starts_with (is_char "-") (to_chars "thicc-5") = false
      /\ starts_with (is_char "-") (rev (to_chars "thicc-5")) = false
      /\ no_double (is_char "-") (to_chars "thicc-5") = true)
  /\ textual (JStr "Thicc 5!") = true.
Proof.
  assert (H : _slugify (JStr "Thicc 5!") = Ok "thicc-5") by reflexivity.
  split; [exact H|]. split.
  - exact (proj1 slugify_shape (JStr "Thicc 5!") "thicc-5" H).
  - apply (proj2 slugify_shape (JStr "Thicc 5!")). exists "thicc-5". exact H.
Defined.

Lemma extract_scene_id_spec_witness :
  _extract_scene_id (JStr "x_0123456789abcdef01234567.mp4")
  = Ok (Some "0123456789abcdef01234567")
  /\ String.length "0123456789abcdef01234567" = 24%nat
  /\ forallb is_hex (to_chars "0123456789abcdef01234567") = true
  /\ exists pre post,
      to_chars "x_0123456789abcdef01234567.mp4"
      = pre ++ to_chars "0123456789abcdef01234567" ++ post.
Proof.
  assert (H : _extract_scene_id (JStr "x_0123456789abcdef01234567.mp4")
              = Ok (Some "0123456789abcdef01234567")) by reflexivity.
  split; [exact H|].
  exact (proj1 (extract_scene_id_spec "x_0123456789abcdef01234567.mp4")
               "0123456789abcdef01234567" H).
Defined.

Lemma extract_storage_key_spec_witness :
  _extract_storage_key (JStr "https://cdn.example/videos/clip_01.mp4?token=1")
  = Ok (Some "clip_01.mp4")
  /\ In "."%char (to_chars "clip_01.mp4")
  /\ ~ In "/"%char (to_chars "clip_01.mp4")
  /\ ~ In "?"%char (to_chars "clip_01.mp4")
  /\ contains "clip_01.mp4" "https://cdn.example/videos/clip_01.mp4?token=1"
     = true.
Proof.
  assert (H : _extract_storage_key
                (JStr "https://cdn.example/videos/clip_01.mp4?token=1")
              = Ok (Some "clip_01.mp4")) by reflexivity.
  split; [exact H|].
  exact (proj1 (extract_storage_key_spec
                  "https://cdn.example/videos/clip_01.mp4?token=1")
               "clip_01.mp4" H).
Defined.





Lemma handle_search_results_abort_witness :
  _handle_search_results Sample.platform
    (fun _ _ => Http 200 (Some (JDict [("data", JList [])])))
    [JDict [("_id", JStr "a")]; JDict [("_id", JStr "b")]] [] []
    Sample.start
  = (Exit 1,
     {| history := [WatchPage "a"];
        stdout := [error_object
                     "Video data not found in watch-page response: "] |}).
Proof.
  apply (handle_search_results_abort Sample.platform
           (fun _ _ => Http 200 (Some (JDict [("data", JList [])])))
           (JDict [("_id", JStr "a")]) [JDict [("_id", JStr "b")]] [] []
           Sample.start (JStr "a") (JDict [("data", JList [])]) 200).
  - simpl. lia.
  - reflexivity.
  - reflexivity.
  - reflexivity.
  - reflexivity.
  - reflexivity.
Defined.

Lemma build_scene_optional_witness :
  let video :=
    [("_id", JStr "abc"); ("title", JStr "Thicc 5");
     ("description", JStr "about"); ("creator", JList [JStr "tomtom10"])] in
  exists scene,
    _build_scene Sample.platform (JDict video) = Ok (JDict scene)
    /\ lookup "details" scene
       = (if truthy (get "description" video)
          then Some (get "description" video) else None)
    /\ (has_key "studio" scene = false
        <-> truthy (creator_name video) = false
            /\ _extract_studio_url video = None)
    /\ exists rest, lookup "url" scene = Some (JStr (video_url ++ rest)).
Proof.
  intros video. eexists. split; [reflexivity|].
  apply (build_scene_optional Sample.platform video). reflexivity.
Defined.

Lemma build_selection_options_entries_witness :
  let candidates := [JDict Sample.video_a; JInt 3; JDict Sample.video_b] in
  exists result options,
    _build_selection_options Sample.platform candidates = Ok result
    /\ result = JDict [("results", JList options)]
    /\ List.length options = 2%nat
    /\ Forall is_option options.
Proof.
  intros candidates. eexists.
  destruct (build_selection_options_entries Sample.platform candidates _
              eq_refl) as (options & H1 & H2 & H3).
  exists options. split; [reflexivity|]. auto.
Defined.

Lemma fetch_candidate_details_failures_witness :
  _fetch_candidate_details Sample.platform Sample.broken_catalog
    (JDict [("_id", JStr "a")]) Sample.start
  = (Ret None, {| history := [WatchPage "a"]; stdout := [] |})
  /\ _fetch_candidate_details Sample.platform Sample.refusing_catalog
       (JDict [("_id", JStr "a")]) Sample.start
     = (Ret None, {| history := [WatchPage "a"]; stdout := [] |}).
Proof.
  split.
  - apply (proj1 (fetch_candidate_details_failures Sample.platform
                    Sample.broken_catalog (JDict [("_id", JStr "a")])
                    (JStr "a") Sample.start eq_refl eq_refl) 502%Z).
    reflexivity.
  - apply (proj1 (proj2 (fetch_candidate_details_failures Sample.platform
                           Sample.refusing_catalog (JDict [("_id", JStr "a")])
                           (JStr "a") Sample.start eq_refl eq_refl))
             200%Z (error_object "not found")); reflexivity.
Defined.
